(** * comms-link: the signalling functions of [functions/src/index.ts]

    A shallow embedding of the four HTTPS functions that exchange a WebRTC
    offer and answer through a Firestore collection, and the properties of
    the session-record lifecycle proved about them.

    The repository holds two revisions of the same file.  They differ in
    names only: [index.ts] speaks of connections (collection ["connections"],
    request key ["connectionName"]), the later revision of sessions
    (collection ["sessions"], request key ["sessionID"]).  The embedding is
    written once, over a [Wording] that collects these strings, and follows
    the names of [index.ts]. *)

From stdpp Require Import base option list strings gmap.
From Stdlib Require Import ZArith.

Local Open Scope Z_scope.

(** ** Data model *)

(** A JavaScript string is a [string]: its characters stand for the code
    units, and [String.length] for [.length]. *)

(** [interface ConnectionData { password?: string; offer?: string;
    answer?: string }]: an object whose fields are all optional strings.
    A Firestore document and the partial object given to [set] are both such
    objects, so both are finite maps from field names to strings; an absent
    key is the field being [undefined]. *)
Abbreviation ConnectionData := (gmap string string).

(** The decoded request: [request.body] and [request.query], objects read
    by key.  The embedding covers the requests and records whose values are
    strings, the type [ConnectionData] declares for them; what the functions
    do with other JSON values is outside it. *)
Record Request := {
  body : gmap string string;
  query : gmap string string
}.

(** What [response.status(s).json(o)] sends.  [o] is either
    [{success: true, data}] or [{success: false, error: message}]; [data]
    is [None] when the handler passes [undefined], a key that the JSON
    encoding then omits. *)
Inductive Json :=
  | JsonSuccess (data : option string)
  | JsonError (error : string).

Record Response := {
  status : Z;
  json : Json
}.

(** The strings in which the two revisions differ. *)
Record Wording := {
  collection_name : string;
  name_key : string;
  invalid_name : string;
  offer_not_found : string;
  answer_not_found : string;
  does_not_exist : string
}.

Definition connection_wording : Wording := {|
  collection_name := "connections";
  name_key := "connectionName";
  invalid_name := "Invalid connection name";
  offer_not_found := "Connection offer not found";
  answer_not_found := "Connection answer not found";
  does_not_exist := "Connection does not exist"
|}.

Definition session_wording : Wording := {|
  collection_name := "sessions";
  name_key := "sessionID";
  invalid_name := "Invalid session ID";
  offer_not_found := "Session offer not found";
  answer_not_found := "Session answer not found";
  does_not_exist := "Session does not exist"
|}.

(** ** JavaScript coercions on optional strings *)

(** Truthiness of a value that is a string or [undefined]: only the
    non-empty string is truthy. *)
Definition truthy (v : option string) : bool :=
  match v with
  | Some s => bool_decide (s ≠ "")
  | None => false
  end.

(** [v ?? ""]. *)
Definition or_empty (v : option string) : string := default "" v.

(** ** The identifier validator *)

(** [if (!connectionName || connectionName.length > 100) return false;
    return true;] *)
Definition isValidConnectionName (connectionName : string) : bool :=
  if negb (truthy (Some connectionName))
     || bool_decide (100 < String.length connectionName)%nat
  then false
  else true.

Definition isValidSessionID (sessionID : string) : bool :=
  isValidConnectionName sessionID.

(** A string of [n] copies of the letter a. *)
Fixpoint letters (n : nat) : string :=
  match n with
  | O => ""
  | S n => "a" +:+ letters n
  end.

(** ** The Firestore backend *)

(** How a computation that may throw ends, and how an awaited promise
    settles: with a value, or with an error, given by its rendering in a
    template string. *)
Inductive Settled (A : Type) :=
  | Fulfilled (a : A)
  | Rejected (error : string).
Arguments Fulfilled {A} a.
Arguments Rejected {A} error.

(** The character that separates the components of a resource path, and
    the quotation mark of the client's messages. *)
Definition slash : Ascii.ascii := Ascii.ascii_of_nat 47.

Definition quoted (s : string) : string :=
  String (Ascii.ascii_of_nat 34) (s +:+ String (Ascii.ascii_of_nat 34) "").

(** [path.split('/')] *)
Fixpoint split_slash (path : string) : list string :=
  match path with
  | EmptyString => [""]
  | String c rest =>
      if Ascii.eqb c slash then "" :: split_slash rest
      else match split_slash rest with
           | component :: components => String c component :: components
           | [] => [String c ""]
           end
  end.

(** [path.indexOf('//') >= 0] *)
Fixpoint has_double_slash (path : string) : bool :=
  match path with
  | String c (String c' _ as rest) =>
      (Ascii.eqb c slash && Ascii.eqb c' slash) || has_double_slash rest
  | _ => false
  end.

(** The components of a path given to the client: a path that is empty or
    holds two slashes in a row is refused; a slash at either end is allowed,
    the empty components being dropped. *)
Definition resource_path (argument path : string) : Settled (list string) :=
  let invalid :=
    "Error: Value for argument " +:+ quoted argument
    +:+ " is not a valid resource path." in
  if bool_decide (path = "") then
    Rejected (invalid +:+ " Path must be a non-empty string.")
  else if has_double_slash path then
    Rejected (invalid +:+ " Paths must not contain //.")
  else Fulfilled (filter (λ component, component ≠ "") (split_slash path)).

(** [admin.firestore().collection(collectionPath).doc(documentPath)]: the
    reference to a document, given by the path of its collection and its
    identifier.  This is the behaviour of the Firestore client library, on
    which the functions depend: it throws unless the collection path has an
    odd number of components and the whole path an even one.  The functions
    call it outside their [try] blocks with the name that passed
    validation. *)
Definition doc (collectionPath documentPath : string)
    : Settled (string * string) :=
  match resource_path "collectionPath" collectionPath with
  | Rejected error => Rejected error
  | Fulfilled collection =>
      if Nat.even (length collection) then
        Rejected ("Error: Value for argument " +:+ quoted "collectionPath"
                  +:+ " must point to a collection, but was "
                  +:+ quoted collectionPath
                  +:+ ". Your path does not contain an odd number of components.")
      else
        match resource_path "documentPath" documentPath with
        | Rejected error => Rejected error
        | Fulfilled relative =>
            let path := collection ++ relative in
            if Nat.even (length path) then
              Fulfilled (String.concat "/" (removelast path), List.last path "")
            else
              Rejected ("Error: Value for argument " +:+ quoted "documentPath"
                        +:+ " must point to a document, but was "
                        +:+ quoted documentPath
                        +:+ ". Your path does not contain an even number of components.")
        end
  end.

(** Whether the client builds a reference from the name, and the
    reference it builds (for a refused name, a pair on which no call is
    ever made). *)
Definition names_document (collectionPath documentPath : string) : bool :=
  match doc collectionPath documentPath with
  | Fulfilled _ => true
  | Rejected _ => false
  end.

Definition reference (collectionPath documentPath : string)
    : string * string :=
  match doc collectionPath documentPath with
  | Fulfilled ref => ref
  | Rejected _ => (collectionPath, documentPath)
  end.

(** Reading the documents through a reference that may not have been
    built: where the client refused the path there is nothing to find. *)
#[export] Instance settled_reference_lookup
    : Lookup (Settled (string * string)) (gmap string string)
             (gmap (string * string) (gmap string string)) | 100 :=
  λ ref documents,
    match ref with
    | Fulfilled built => documents !! built
    | Rejected _ => None
    end.

(** The calls a handler makes on document references. *)
Inductive StoreCall :=
  | CallGet (ref : string * string)
  | CallSet (ref : string * string) (data : ConnectionData).

(** The backend as a handler sees it: the documents, each under the path
    of its collection and its identifier, the outcome the
    backend will give to each of the coming calls ([Some e]: the call's
    promise rejects with [e], whose rendering in a template string is [e];
    [None], or no entry: it fulfils), and the calls made so far. *)
Record Firestore := {
  docs : gmap (string * string) ConnectionData;
  pending : list (option string);
  calls : list StoreCall
}.

(** The error, if any, with which the [n]-th coming call rejects. *)
Definition fault_at (n : nat) (fs : Firestore) : option string :=
  match pending fs !! n with
  | Some (Some error) => Some error
  | _ => None
  end.

(** One call made: its outcome is used up and the call noted. *)
Definition advance (c : StoreCall) (fs : Firestore) : Firestore :=
  {| docs := docs fs; pending := tail (pending fs); calls := calls fs ++ [c] |}.

(** [set(data, {merge: true})] on the documents: the document is created
    when absent, and the fields of [data] replace those of the same name. *)
Definition merge_into (ref : string * string) (data : ConnectionData)
    (fs : Firestore) : Firestore :=
  {| docs := <[ref := data ∪ default ∅ (docs fs !! ref)]> (docs fs);
     pending := pending fs;
     calls := calls fs |}.

(** ** Asynchronous computations *)

(** An [async] computation over the backend.  For a handler, [Fulfilled r]
    says that it sent the response [r] and returned; [Rejected e] that the
    exception [e] left it, no response having been sent by its code. *)
Definition Async (A : Type) : Type := Firestore → Settled A * Firestore.

#[export] Instance async_ret : MRet Async := λ A a fs, (Fulfilled a, fs).

(** [const x = await m; k x]: a rejection of [m] is thrown past [k]. *)
#[export] Instance async_bind : MBind Async := λ A B k m fs,
  match m fs with
  | (Fulfilled a, fs') => k a fs'
  | (Rejected error, fs') => (Rejected error, fs')
  end.

(** A computation that throws or returns without calling the backend. *)
Definition evaluate {A} (result : Settled A) : Async A := λ fs, (result, fs).

(** [try { block } catch (error) { handler }]. *)
Definition try_catch {A} (block : Async A) (handler : string → Async A)
    : Async A := λ fs,
  match block fs with
  | (Fulfilled a, fs') => (Fulfilled a, fs')
  | (Rejected error, fs') => handler error fs'
  end.

(** [await ref.get()]: the snapshot, [None] when [!snapshot.exists]. *)
Definition doc_get (ref : string * string) : Async (option ConnectionData) :=
  λ fs,
  match fault_at 0 fs with
  | Some error => (Rejected error, advance (CallGet ref) fs)
  | None => (Fulfilled (docs fs !! ref), advance (CallGet ref) fs)
  end.

(** [await ref.set(data, {merge: true})]. *)
Definition doc_set_merge (ref : string * string) (data : ConnectionData)
    : Async unit := λ fs,
  match fault_at 0 fs with
  | Some error => (Rejected error, advance (CallSet ref data) fs)
  | None => (Fulfilled (), merge_into ref data (advance (CallSet ref data) fs))
  end.

(** ** Responses *)

(** [response.status(200).json({success: true, data})] *)
Definition sendSuccessResponse (data : option string) : Async Response :=
  mret {| status := 200; json := JsonSuccess data |}.

(** [response.status(status).json({success: false, error: message})] *)
Definition sendErrorResponse (status : Z) (message : string)
    : Async Response :=
  mret {| status := status; json := JsonError message |}.

(** ** The four functions *)

Section Functions.
Variable W : Wording.

(** [exports.connectionOffer]: publishes an offer.  The reference is built
    before the [try] block is entered, the write made inside it. *)
Definition connectionOffer (request : Request) : Async Response :=
  let connectionName := or_empty (body request !! name_key W) in
  if negb (isValidConnectionName connectionName) then
    sendErrorResponse 403 (invalid_name W)
  else
    let offer : ConnectionData :=
      {[ "password" := or_empty (body request !! "password");
         "offer" := or_empty (body request !! "offer") ]} in
    if negb (truthy (offer !! "offer")) then
      sendErrorResponse 403 "Invalid offer"
    else
      connectionDocumentData ←
        evaluate (doc (collection_name W) connectionName);
      try_catch
        (doc_set_merge connectionDocumentData offer;;
         sendSuccessResponse (Some "Success"))
        (λ error, sendErrorResponse 500 ("Error: " +:+ error)).

(** [exports.getOffer]: retrieves the offer.  The snapshot is awaited
    before the [try] block is entered.  The two nested tests
    [if (storedPassword) { if (requestPassword != storedPassword) ... } ]
    are written as one conjunction. *)
Definition getOffer (request : Request) : Async Response :=
  let connectionName := or_empty (query request !! name_key W) in
  let requestPassword := or_empty (query request !! "password") in
  if negb (isValidConnectionName connectionName) then
    sendErrorResponse 403 (invalid_name W)
  else
    connectionDocumentData ←
      (evaluate (doc (collection_name W) connectionName) ≫= doc_get);
    try_catch
      (match connectionDocumentData with
       | Some fields =>
           let offer := fields !! "offer" in
           let storedPassword := fields !! "password" in
           if truthy storedPassword
              && bool_decide (Some requestPassword ≠ storedPassword)
           then sendErrorResponse 403 "Invalid or incorrect password"
           else sendSuccessResponse offer
       | None => sendErrorResponse 404 (offer_not_found W)
       end)
      (λ error, sendErrorResponse 500 ("Error: " +:+ error)).

(** [exports.connectionAnswer]: publishes an answer for an existing offer.
    The snapshot is awaited before the [try] block, the write inside it. *)
Definition connectionAnswer (request : Request) : Async Response :=
  let connectionName := or_empty (body request !! name_key W) in
  let requestPassword := or_empty (body request !! "password") in
  if negb (isValidConnectionName connectionName) then
    sendErrorResponse 403 (invalid_name W)
  else
    connectionDocument ← evaluate (doc (collection_name W) connectionName);
    connectionDocumentData ← doc_get connectionDocument;
    try_catch
      (match connectionDocumentData with
       | Some fields =>
           let storedPassword := fields !! "password" in
           if truthy storedPassword
              && bool_decide (Some requestPassword ≠ storedPassword)
           then sendErrorResponse 403 "Invalid or incorrect password"
           else if negb (truthy (fields !! "offer")) then
             sendErrorResponse 403 (offer_not_found W)
           else
             let answer : ConnectionData :=
               {[ "answer" := or_empty (body request !! "answer") ]} in
             doc_set_merge connectionDocument answer;;
             sendSuccessResponse (Some "Success")
       | None => sendErrorResponse 404 (offer_not_found W)
       end)
      (λ error, sendErrorResponse 500 ("Error: " +:+ error)).

(** [exports.getAnswer]: retrieves the answer.  Only the name is read from
    the request. *)
Definition getAnswer (request : Request) : Async Response :=
  let connectionName := or_empty (query request !! name_key W) in
  if negb (isValidConnectionName connectionName) then
    sendErrorResponse 403 (invalid_name W)
  else
    connectionDocumentData ←
      (evaluate (doc (collection_name W) connectionName) ≫= doc_get);
    try_catch
      (match connectionDocumentData with
       | Some fields =>
           let answer := fields !! "answer" in
           if truthy answer then sendSuccessResponse answer
           else sendErrorResponse 404 (answer_not_found W)
       | None => sendErrorResponse 403 (does_not_exist W)
       end)
      (λ error, sendErrorResponse 500 ("Error: " +:+ error)).

End Functions.

(** The later revision's names for the two publishing functions. *)
Definition sessionOffer : Request → Async Response :=
  connectionOffer session_wording.

Definition sessionAnswer : Request → Async Response :=
  connectionAnswer session_wording.

(** ** Conditions of the contract *)

(** The password check of a record against a supplied password passes
    unless the record's password is non-empty and differs from it. *)
Definition password_passes (fields : ConnectionData) (supplied : string)
    : Prop :=
  ∀ stored, fields !! "password" = Some stored → stored ≠ "" →
            supplied = stored.

(** [connectionAnswer] went past its password check on the record
    [fields]: it fails on a missing offer, and otherwise attempts the
    write of the answer. *)
Definition past_password_check (W : Wording) (request : Request)
    (fs : Firestore) (id : string) (fields : ConnectionData) : Prop :=
  let answer : ConnectionData :=
    {[ "answer" := or_empty (body request !! "answer") ]} in
  match doc (collection_name W) id with
  | Fulfilled ref =>
      if truthy (fields !! "offer")
      then calls (snd (connectionAnswer W request fs))
           = calls fs ++ [CallGet ref; CallSet ref answer]
      else connectionAnswer W request fs
           = (Fulfilled {| status := 403;
                           json := JsonError (offer_not_found W) |},
              advance (CallGet ref) fs)
  | Rejected _ => False
  end.

(** ** The operations and their outcomes *)

Inductive Operation :=
  | PublishOffer
  | FetchOffer
  | PublishAnswer
  | FetchAnswer.

(** The function that serves each operation. *)
Definition handler (W : Wording) (op : Operation)
    : Request → Async Response :=
  match op with
  | PublishOffer => connectionOffer W
  | FetchOffer => getOffer W
  | PublishAnswer => connectionAnswer W
  | FetchAnswer => getAnswer W
  end.

(** Where an operation's parameters travel: the publishing operations
    are sent a body, the fetching ones a query. *)
Definition parameters (op : Operation) (request : Request)
    : gmap string string :=
  match op with
  | PublishOffer | PublishAnswer => body request
  | FetchOffer | FetchAnswer => query request
  end.

(** The kinds of failure of the contract. *)
Inductive ErrorKind :=
  | InvalidIdentifier
  | InvalidOffer
  | PasswordMismatch
  | OfferNotFound
  | SessionNotFound
  | SessionDoesNotExist
  | AnswerNotFound
  | StorageFailure (cause : string).

(** What an operation comes to: an acknowledgement (the publishing
    operations), a payload read from the record (the fetching ones; [None]
    when the field read is absent), or a failure. *)
Inductive Outcome :=
  | Acknowledged
  | Payload (data : option string)
  | Failed (kind : ErrorKind).

(** The status paired with each kind of failure. *)
Definition status_of (kind : ErrorKind) : Z :=
  match kind with
  | InvalidIdentifier | InvalidOffer | PasswordMismatch | OfferNotFound => 403
  | SessionNotFound | AnswerNotFound => 404
  | SessionDoesNotExist => 403
  | StorageFailure _ => 500
  end.

(** The text sent with each kind of failure. *)
Definition message_of (W : Wording) (kind : ErrorKind) : string :=
  match kind with
  | InvalidIdentifier => invalid_name W
  | InvalidOffer => "Invalid offer"
  | PasswordMismatch => "Invalid or incorrect password"
  | OfferNotFound | SessionNotFound => offer_not_found W
  | SessionDoesNotExist => does_not_exist W
  | AnswerNotFound => answer_not_found W
  | StorageFailure cause => "Error: " +:+ cause
  end.

(** The response envelope of an outcome. *)
Definition envelope (W : Wording) (o : Outcome) : Response :=
  match o with
  | Acknowledged => {| status := 200; json := JsonSuccess (Some "Success") |}
  | Payload data => {| status := 200; json := JsonSuccess data |}
  | Failed kind =>
      {| status := status_of kind; json := JsonError (message_of W kind) |}
  end.

(** A field that is absent or the empty string. *)
Definition blank (v : option string) : bool :=
  bool_decide (v = None ∨ v = Some "").

(** The record has a non-empty password other than the supplied one. *)
Definition password_mismatch (fields : ConnectionData) (supplied : string)
    : bool :=
  match fields !! "password" with
  | Some stored => bool_decide (stored ≠ "" ∧ stored ≠ supplied)
  | None => false
  end.

(** The outcome of an operation by the conditions of its contract, the
    reads of the backend having succeeded.  The write of [PublishOffer] is
    the first call on the backend, that of [PublishAnswer] the second. *)
Definition outcome (W : Wording) (op : Operation) (request : Request)
    (fs : Firestore) : Outcome :=
  let given := parameters op request in
  let id := or_empty (given !! name_key W) in
  let supplied := or_empty (given !! "password") in
  let record := docs fs !! doc (collection_name W) id in
  let written (n : nat) :=
    match fault_at n fs with
    | Some cause => Failed (StorageFailure cause)
    | None => Acknowledged
    end in
  if bool_decide (1 ≤ String.length id ≤ 100)%nat then
    match op, record with
    | PublishOffer, _ =>
        if blank (given !! "offer") then Failed InvalidOffer else written 0%nat
    | FetchOffer, None => Failed SessionNotFound
    | FetchOffer, Some fields =>
        if password_mismatch fields supplied then Failed PasswordMismatch
        else Payload (fields !! "offer")
    | PublishAnswer, None => Failed SessionNotFound
    | PublishAnswer, Some fields =>
        if password_mismatch fields supplied then Failed PasswordMismatch
        else if blank (fields !! "offer") then Failed OfferNotFound
        else written 1%nat
    | FetchAnswer, None => Failed SessionDoesNotExist
    | FetchAnswer, Some fields =>
        if blank (fields !! "answer") then Failed AnswerNotFound
        else Payload (fields !! "answer")
    end
  else Failed InvalidIdentifier.

(** The envelope in the words of the interface description: a success
    carries a string as its data, a failure a message and the status of
    its kind. *)
Definition enveloped_as_described (r : Response) : Prop :=
  (status r = 200 ∧ ∃ data : string, json r = JsonSuccess (Some data))
  ∨ (∃ kind message,
       status r = status_of kind ∧ json r = JsonError message).

(** ** Sample requests and backends *)

(** A request whose body and query both hold the given parameters. *)
Definition request_of (given : list (string * string)) : Request :=
  {| body := list_to_map given; query := list_to_map given |}.

(** A backend that holds one record of the connections collection and
    gives the listed outcomes to the coming calls. *)
Definition backend_of (id : string) (fields : list (string * string))
    (outcomes : list (option string)) : Firestore :=
  {| docs := {[ ("connections", id) := list_to_map fields ]};
     pending := outcomes;
     calls := [] |}.

(** The record of a session guarded by the password "secret", its offer
    and its answer both published. *)
Definition guarded_record : list (string * string) :=
  [("password", "secret"); ("offer", "v=0"); ("answer", "v=1")].

(** The record of a session without password whose answer is awaited. *)
Definition open_record : list (string * string) :=
  [("password", ""); ("offer", "v=0")].

(** A backend without documents, all of whose calls succeed. *)
Definition empty_backend : Firestore :=
  {| docs := ∅; pending := []; calls := [] |}.

(** ** Requests served one after the other *)

(** The name an operation's request gives. *)
Definition named (W : Wording) (op : Operation) (request : Request)
    : string :=
  or_empty (parameters op request !! name_key W).

(** The document an operation's request addresses: the one its name refers
    to, where the client builds a reference from the name. *)
Definition addressed (W : Wording) (op : Operation) (request : Request)
    : string * string :=
  reference (collection_name W) (named W op request).

(** The backend after the listed requests were served in turn, each
    function running to its end before the next request is taken. *)
Definition serve (W : Wording) (requests : list (Operation * Request))
    (fs : Firestore) : Firestore :=
  foldl (λ fs r, snd (handler W r.1 r.2 fs)) fs requests.

(** Every record holds a non-empty offer. *)
Definition offers_present (documents : gmap (string * string) ConnectionData)
    : Prop :=
  ∀ ref fields, documents !! ref = Some fields →
                truthy (fields !! "offer") = true.

(** ** Properties *)

Lemma truthy_Some_true s : truthy (Some s) = true ↔ s ≠ "".
Proof. unfold truthy. by rewrite bool_decide_eq_true. Qed.

Lemma truthy_false v : truthy v = false ↔ v = None ∨ v = Some "".
Proof.
  destruct v as [s|]; simpl.
  - rewrite bool_decide_eq_false. split.
    + intros H. right. f_equal. by apply dec_stable.
    + intros [?|[= ->]]; [done | tauto].
  - naive_solver.
Qed.

Lemma length_zero_empty s : String.length s = 0%nat ↔ s = "".
Proof. destruct s; simpl; split; (done || lia || congruence). Qed.

(** *** The validator *)

Lemma valid_name_length (id : string) :
  isValidConnectionName id = true ↔ (1 ≤ String.length id ≤ 100)%nat.
Proof.
  unfold isValidConnectionName.
  destruct (truthy (Some id)) eqn:Ht; simpl.
  - apply truthy_Some_true in Ht.
    assert (String.length id ≠ 0%nat) by (by rewrite length_zero_empty).
    case_bool_decide; split; (done || lia).
  - apply truthy_false in Ht as [?|[= ->]]; [done|].
    simpl. split; (done || lia).
Qed.

(** C6: the validator accepts an identifier exactly when its length is
    between 1 and 100; a 100-character identifier is accepted and a
    101-character one is rejected. *)
Theorem isValidConnectionName_length :
  (∀ id : string,
     isValidConnectionName id = true ↔
     (1 ≤ String.length id ≤ 100)%nat)
  ∧ (String.length (letters 100) = 100%nat
     ∧ isValidConnectionName (letters 100) = true)
  ∧ (String.length (letters 101) = 101%nat
     ∧ isValidConnectionName (letters 101) = false).
Proof. split; [apply valid_name_length | repeat split; reflexivity]. Qed.

(** *** Stepping through the backend calls *)

Lemma fault_at_advance n c fs : fault_at n (advance c fs) = fault_at (S n) fs.
Proof. unfold fault_at, advance; simpl. by rewrite lookup_tail. Qed.

Lemma fault_at_merge_into n ref data fs :
  fault_at n (merge_into ref data fs) = fault_at n fs.
Proof. done. Qed.

Lemma doc_get_fulfils ref fs :
  fault_at 0 fs = None →
  doc_get ref fs = (Fulfilled (docs fs !! ref), advance (CallGet ref) fs).
Proof. intros H. unfold doc_get. by rewrite H. Qed.

Lemma doc_get_rejects ref fs error :
  fault_at 0 fs = Some error →
  doc_get ref fs = (Rejected error, advance (CallGet ref) fs).
Proof. intros H. unfold doc_get. by rewrite H. Qed.

Lemma doc_set_merge_fulfils ref data fs :
  fault_at 0 fs = None →
  doc_set_merge ref data fs
  = (Fulfilled (), merge_into ref data (advance (CallSet ref data) fs)).
Proof. intros H. unfold doc_set_merge. by rewrite H. Qed.

Lemma doc_set_merge_rejects ref data fs error :
  fault_at 0 fs = Some error →
  doc_set_merge ref data fs = (Rejected error, advance (CallSet ref data) fs).
Proof. intros H. unfold doc_set_merge. by rewrite H. Qed.

Lemma bind_fulfilled {A B} (m : Async A) (k : A → Async B) fs a fs' :
  m fs = (Fulfilled a, fs') → (m ≫= k) fs = k a fs'.
Proof. intros H. unfold mbind, async_bind. by rewrite H. Qed.

Lemma bind_rejected {A B} (m : Async A) (k : A → Async B) fs error fs' :
  m fs = (Rejected error, fs') → (m ≫= k) fs = (Rejected error, fs').
Proof. intros H. unfold mbind, async_bind. by rewrite H. Qed.

Lemma bind_evaluate_fulfilled {A B} (a : A) (k : A → Async B) fs :
  (evaluate (Fulfilled a) ≫= k) fs = k a fs.
Proof. done. Qed.

Lemma bind_evaluate_rejected {A B} error (k : A → Async B) fs :
  (evaluate (Rejected error) ≫= k) fs = (Rejected error, fs).
Proof. done. Qed.

(** *** References *)

Lemma names_document_doc c name :
  names_document c name = true → doc c name = Fulfilled (reference c name).
Proof. unfold names_document, reference. by destruct (doc c name). Qed.

Lemma names_document_false c name :
  names_document c name = false → ∃ error, doc c name = Rejected error.
Proof. unfold names_document. destruct (doc c name); [done | eauto]. Qed.

Lemma lookup_doc_Some (documents : gmap (string * string) ConnectionData)
    c name fields :
  documents !! doc c name = Some fields →
  names_document c name = true ∧ documents !! reference c name = Some fields.
Proof.
  unfold names_document, reference, lookup at 1, settled_reference_lookup.
  by destruct (doc c name).
Qed.

Lemma lookup_doc_reference (documents : gmap (string * string) ConnectionData)
    c name :
  names_document c name = true →
  documents !! doc c name = documents !! reference c name.
Proof. intros H. by rewrite (names_document_doc _ _ H). Qed.

Lemma merge_into_lookup_doc c name data fs :
  names_document c name = true →
  docs (merge_into (reference c name) data fs) !! doc c name
  = Some (data ∪ default ∅ (docs fs !! reference c name)).
Proof.
  intros Hdoc. rewrite (names_document_doc _ _ Hdoc).
  unfold merge_into, lookup at 1, settled_reference_lookup. simpl.
  by rewrite lookup_insert_eq.
Qed.

Lemma merge_into_lookup_other c name data fs
    (ref : Settled (string * string)) :
  names_document c name = true →
  ref ≠ doc c name →
  docs (merge_into (reference c name) data fs) !! ref = docs fs !! ref.
Proof.
  intros Hdoc Href. rewrite (names_document_doc _ _ Hdoc) in Href.
  destruct ref as [built|error]; [|done].
  unfold merge_into, lookup, settled_reference_lookup. simpl.
  apply lookup_insert_ne. congruence.
Qed.

(** What the merged write leaves in the written document. *)
Lemma merge_into_lookup ref data fs :
  docs (merge_into ref data fs) !! ref
  = Some (data ∪ default ∅ (docs fs !! ref)).
Proof. unfold merge_into; simpl. by rewrite lookup_insert_eq. Qed.

(** The password gate of [getOffer] and [connectionAnswer], as a
    condition on the stored and the supplied password. *)
Lemma gate_closed stored supplied :
  truthy stored && bool_decide (Some supplied ≠ stored) = true
  ↔ ∃ s, stored = Some s ∧ s ≠ "" ∧ supplied ≠ s.
Proof.
  rewrite andb_true_iff, bool_decide_eq_true. split.
  - intros [Ht Hne]. destruct stored as [s|]; [|done].
    exists s. apply truthy_Some_true in Ht. naive_solver.
  - intros (s & -> & Hs & Hne). rewrite truthy_Some_true. naive_solver.
Qed.

Lemma gate_open_falsy stored supplied :
  truthy stored = false →
  truthy stored && bool_decide (Some supplied ≠ stored) = false.
Proof. by intros ->. Qed.

Lemma gate_open_equal stored :
  truthy (Some stored) && bool_decide (Some stored ≠ Some stored) = false.
Proof. rewrite andb_false_iff, bool_decide_eq_false. naive_solver. Qed.

(** *** The reading functions on an existing record *)

Section Reading.
Context (W : Wording) (request : Request) (fs : Firestore).
Context (id : string) (fields : ConnectionData).
Hypothesis Hname : query request !! name_key W = Some id.
Hypothesis Hvalid : isValidConnectionName id = true.
Hypothesis Hread : fault_at 0 fs = None.
Hypothesis Hrecord : docs fs !! doc (collection_name W) id = Some fields.

Lemma getAnswer_existing :
  getAnswer W request fs
  = (Fulfilled
       (if truthy (fields !! "answer")
        then {| status := 200; json := JsonSuccess (fields !! "answer") |}
        else {| status := 404; json := JsonError (answer_not_found W) |}),
     advance (CallGet (reference (collection_name W) id)) fs).
Proof.
  apply lookup_doc_Some in Hrecord as [Hdoc Hfields].
  unfold getAnswer. rewrite Hname; simpl. rewrite Hvalid; simpl.
  rewrite (names_document_doc _ _ Hdoc).
  erewrite bind_fulfilled by (by apply doc_get_fulfils).
  rewrite Hfields. unfold try_catch.
  by destruct (truthy (fields !! "answer")).
Qed.

Lemma getOffer_existing :
  getOffer W request fs
  = (Fulfilled
       (if truthy (fields !! "password")
           && bool_decide (Some (or_empty (query request !! "password"))
                           ≠ fields !! "password")
        then {| status := 403;
                json := JsonError "Invalid or incorrect password" |}
        else {| status := 200; json := JsonSuccess (fields !! "offer") |}),
     advance (CallGet (reference (collection_name W) id)) fs).
Proof.
  apply lookup_doc_Some in Hrecord as [Hdoc Hfields].
  unfold getOffer. rewrite Hname; simpl. rewrite Hvalid; simpl.
  rewrite (names_document_doc _ _ Hdoc).
  erewrite bind_fulfilled by (by apply doc_get_fulfils).
  rewrite Hfields. unfold try_catch.
  by destruct (_ && _).
Qed.

End Reading.

(** *** The writing functions *)

Lemma offer_object_offer (p o : string) :
  ({[ "password" := p; "offer" := o ]} : ConnectionData) !! "offer" = Some o.
Proof. by simplify_map_eq. Qed.

Section Writing.
Context (W : Wording) (request : Request) (fs : Firestore) (id : string).
Hypothesis Hname : body request !! name_key W = Some id.
Hypothesis Hvalid : isValidConnectionName id = true.

Lemma connectionOffer_invalid_offer :
  truthy (body request !! "offer") = false →
  connectionOffer W request fs
  = (Fulfilled {| status := 403; json := JsonError "Invalid offer" |}, fs).
Proof.
  intros Hoffer. unfold connectionOffer. rewrite Hname; simpl.
  rewrite Hvalid, offer_object_offer; simpl.
  by apply truthy_false in Hoffer as [-> | ->].
Qed.

Lemma connectionOffer_refused error :
  truthy (body request !! "offer") = true →
  doc (collection_name W) id = Rejected error →
  connectionOffer W request fs = (Rejected error, fs).
Proof.
  intros Hoffer Hdoc. unfold connectionOffer. rewrite Hname; simpl.
  rewrite Hvalid, offer_object_offer; simpl.
  destruct (body request !! "offer") as [o|] eqn:Ho; [|done]. simpl in *.
  rewrite Hoffer; simpl. by rewrite Hdoc.
Qed.

Lemma connectionOffer_valid_offer :
  truthy (body request !! "offer") = true →
  names_document (collection_name W) id = true →
  let ref := reference (collection_name W) id in
  let offer : ConnectionData :=
    {[ "password" := or_empty (body request !! "password");
       "offer" := or_empty (body request !! "offer") ]} in
  connectionOffer W request fs
  = match fault_at 0 fs with
    | None =>
        (Fulfilled {| status := 200; json := JsonSuccess (Some "Success") |},
         merge_into ref offer (advance (CallSet ref offer) fs))
    | Some error =>
        (Fulfilled {| status := 500; json := JsonError ("Error: " +:+ error) |},
         advance (CallSet ref offer) fs)
    end.
Proof.
  intros Hoffer Hdoc ref offer. unfold connectionOffer. rewrite Hname; simpl.
  rewrite Hvalid, offer_object_offer; simpl.
  destruct (body request !! "offer") as [o|] eqn:Ho; [|done]. simpl in *.
  rewrite Hoffer; simpl. rewrite (names_document_doc _ _ Hdoc).
  rewrite bind_evaluate_fulfilled. fold ref. unfold try_catch.
  destruct (fault_at 0 fs) as [error|] eqn:Hf.
  - by erewrite bind_rejected by (by apply doc_set_merge_rejects).
  - by erewrite bind_fulfilled by (by apply doc_set_merge_fulfils).
Qed.

Lemma connectionAnswer_existing fields :
  fault_at 0 fs = None →
  docs fs !! doc (collection_name W) id = Some fields →
  let ref := reference (collection_name W) id in
  let answer : ConnectionData :=
    {[ "answer" := or_empty (body request !! "answer") ]} in
  let fs1 := advance (CallGet ref) fs in
  connectionAnswer W request fs
  = if truthy (fields !! "password")
       && bool_decide (Some (or_empty (body request !! "password"))
                       ≠ fields !! "password")
    then (Fulfilled {| status := 403;
                       json := JsonError "Invalid or incorrect password" |},
          fs1)
    else if negb (truthy (fields !! "offer"))
    then (Fulfilled {| status := 403; json := JsonError (offer_not_found W) |},
          fs1)
    else match fault_at 1 fs with
         | None =>
             (Fulfilled {| status := 200;
                           json := JsonSuccess (Some "Success") |},
              merge_into ref answer (advance (CallSet ref answer) fs1))
         | Some error =>
             (Fulfilled {| status := 500;
                           json := JsonError ("Error: " +:+ error) |},
              advance (CallSet ref answer) fs1)
         end.
Proof.
  intros Hread Hrecord ref answer fs1.
  apply lookup_doc_Some in Hrecord as [Hdoc Hfields].
  unfold connectionAnswer.
  rewrite Hname; simpl. rewrite Hvalid; simpl.
  rewrite (names_document_doc _ _ Hdoc), bind_evaluate_fulfilled.
  erewrite bind_fulfilled by (by apply doc_get_fulfils).
  fold ref in Hfields |- *. rewrite Hfields. unfold try_catch. fold fs1.
  destruct (_ && _); [done|].
  destruct (truthy (fields !! "offer")); simpl; [|done].
  assert (fault_at 0 fs1 = fault_at 1 fs) as Hf by apply fault_at_advance.
  destruct (fault_at 1 fs) as [error|].
  - by erewrite bind_rejected by (by apply doc_set_merge_rejects).
  - by erewrite bind_fulfilled by (by apply doc_set_merge_fulfils).
Qed.

End Writing.

Lemma password_passes_gate fields supplied :
  password_passes fields supplied ↔
  truthy (fields !! "password")
  && bool_decide (Some supplied ≠ fields !! "password") = false.
Proof.
  rewrite <-not_true_iff_false, gate_closed. unfold password_passes. split.
  - intros H (s & Hs & Hne & Hdiff). by apply Hdiff, H.
  - intros H stored Hs Hne. destruct (decide (supplied = stored)); [done|].
    destruct H. eauto.
Qed.

(** *** The claims about the session-record lifecycle *)

(** C2: on a record with a non-empty password and a non-empty answer,
    [getAnswer] with a valid identifier sends the answer, whatever the
    request holds besides the identifier: no password is read or checked. *)
Theorem getAnswer_without_password (W : Wording) (request : Request)
    (fs : Firestore) (id : string) (fields : ConnectionData)
    (stored a : string) :
  query request !! name_key W = Some id →
  isValidConnectionName id = true →
  fault_at 0 fs = None →
  docs fs !! doc (collection_name W) id = Some fields →
  fields !! "password" = Some stored → stored ≠ "" →
  fields !! "answer" = Some a → a ≠ "" →
  fst (getAnswer W request fs)
  = Fulfilled {| status := 200; json := JsonSuccess (Some a) |}
  ∧ ∀ request' : Request,
      query request' !! name_key W = Some id →
      getAnswer W request' fs = getAnswer W request fs.
Proof.
  intros Hname Hvalid Hread Hrecord _ _ Ha Hne. split.
  - rewrite (getAnswer_existing W request fs id fields) by done.
    rewrite Ha; simpl. by rewrite bool_decide_true.
  - intros request' Hname'.
    by rewrite !(getAnswer_existing W _ fs id fields).
Qed.

(** C8: on an existing record, [getAnswer] with a valid identifier fails
    with "answer not found" (404) when the answer field is absent or the
    empty string, and sends the answer exactly when the field is present
    and non-empty. *)
Theorem getAnswer_answer_not_found (W : Wording) (request : Request)
    (fs : Firestore) (id : string) (fields : ConnectionData) :
  query request !! name_key W = Some id →
  isValidConnectionName id = true →
  fault_at 0 fs = None →
  docs fs !! doc (collection_name W) id = Some fields →
  (fields !! "answer" = None ∨ fields !! "answer" = Some "" →
   fst (getAnswer W request fs)
   = Fulfilled {| status := 404; json := JsonError (answer_not_found W) |})
  ∧ (∀ a, fields !! "answer" = Some a → a ≠ "" →
     fst (getAnswer W request fs)
     = Fulfilled {| status := 200; json := JsonSuccess (Some a) |})
  ∧ ((∃ data, fst (getAnswer W request fs)
              = Fulfilled {| status := 200; json := JsonSuccess data |})
     ↔ ∃ a, fields !! "answer" = Some a ∧ a ≠ "").
Proof.
  intros Hname Hvalid Hread Hrecord.
  rewrite (getAnswer_existing W request fs id fields) by done. simpl.
  split; [|split].
  - intros H. apply truthy_false in H. by rewrite H.
  - intros a Ha Hne. rewrite Ha. simpl. by rewrite bool_decide_true.
  - destruct (truthy (fields !! "answer")) eqn:Ht.
    + destruct (fields !! "answer") as [a|]; [|done].
      apply truthy_Some_true in Ht. split; intros _; eauto.
    + apply truthy_false in Ht. split; [by intros [? ?]|].
      intros (a & Ha & Hne). rewrite Ha in Ht.
      by destruct Ht as [?|[= ->]].
Qed.

(** C10: [getOffer] does not check that the offer is there.  On an
    existing record whose offer field is absent or empty and whose
    password check passes, it succeeds and sends that absent or empty
    value, where [connectionAnswer] fails with "offer not found" (403). *)
Theorem getOffer_no_offer_check (W : Wording) (fetch publish : Request)
    (fs : Firestore) (id : string) (fields : ConnectionData) :
  query fetch !! name_key W = Some id →
  body publish !! name_key W = Some id →
  isValidConnectionName id = true →
  fault_at 0 fs = None →
  docs fs !! doc (collection_name W) id = Some fields →
  fields !! "offer" = None ∨ fields !! "offer" = Some "" →
  password_passes fields (or_empty (query fetch !! "password")) →
  password_passes fields (or_empty (body publish !! "password")) →
  fst (getOffer W fetch fs)
  = Fulfilled {| status := 200; json := JsonSuccess (fields !! "offer") |}
  ∧ fst (connectionAnswer W publish fs)
    = Fulfilled {| status := 403; json := JsonError (offer_not_found W) |}.
Proof.
  intros Hfetch Hpublish Hvalid Hread Hrecord Hoffer Hpf Hpp.
  apply password_passes_gate in Hpf, Hpp. apply truthy_false in Hoffer.
  split.
  - rewrite (getOffer_existing W fetch fs id fields) by done.
    by rewrite Hpf.
  - rewrite (connectionAnswer_existing W publish fs id) with (fields := fields)
      by done.
    by rewrite Hpp, Hoffer.
Qed.

Lemma connectionAnswer_past_check (W : Wording) (request : Request)
    (fs : Firestore) (id : string) (fields : ConnectionData) :
  body request !! name_key W = Some id →
  isValidConnectionName id = true →
  fault_at 0 fs = None →
  docs fs !! doc (collection_name W) id = Some fields →
  password_passes fields (or_empty (body request !! "password")) →
  past_password_check W request fs id fields.
Proof.
  intros Hname Hvalid Hread Hrecord Hpass.
  apply password_passes_gate in Hpass. unfold past_password_check.
  rewrite (connectionAnswer_existing W request fs id) with (fields := fields)
    by done.
  apply lookup_doc_Some in Hrecord as [Hdoc _].
  rewrite (names_document_doc _ _ Hdoc).
  rewrite Hpass. destruct (truthy (fields !! "offer")); simpl; [|done].
  destruct (fault_at 1 fs); simpl; by rewrite <-app_assoc.
Qed.

(** C4: on an existing record, a non-empty stored password that differs
    from the supplied one makes [getOffer] and [connectionAnswer] fail with
    the password error (403); a supplied password equal to the non-empty
    stored one passes the check; and with an empty or absent stored
    password both go on whatever password is supplied. *)
Theorem password_gate (W : Wording) (fetch publish : Request)
    (fs : Firestore) (id : string) (fields : ConnectionData) :
  query fetch !! name_key W = Some id →
  body publish !! name_key W = Some id →
  isValidConnectionName id = true →
  fault_at 0 fs = None →
  docs fs !! doc (collection_name W) id = Some fields →
  let fetch_password := or_empty (query fetch !! "password") in
  let publish_password := or_empty (body publish !! "password") in
  let mismatch :=
    {| status := 403; json := JsonError "Invalid or incorrect password" |} in
  let offer_sent :=
    {| status := 200; json := JsonSuccess (fields !! "offer") |} in
  (∀ stored, fields !! "password" = Some stored → stored ≠ "" →
     (fetch_password ≠ stored →
      fst (getOffer W fetch fs) = Fulfilled mismatch)
     ∧ (publish_password ≠ stored →
        fst (connectionAnswer W publish fs) = Fulfilled mismatch)
     ∧ (fetch_password = stored →
        fst (getOffer W fetch fs) = Fulfilled offer_sent)
     ∧ (publish_password = stored →
        past_password_check W publish fs id fields))
  ∧ (fields !! "password" = None ∨ fields !! "password" = Some "" →
     fst (getOffer W fetch fs) = Fulfilled offer_sent
     ∧ past_password_check W publish fs id fields).
Proof.
  intros Hfetch Hpublish Hvalid Hread Hrecord fp pp mismatch offer_sent.
  pose proof (getOffer_existing W fetch fs id fields Hfetch Hvalid Hread
                Hrecord) as Hget.
  pose proof (connectionAnswer_existing W publish fs id Hpublish Hvalid fields
                Hread Hrecord) as Hans.
  simpl in Hans. fold fp in Hget. fold pp in Hans.
  split.
  - intros stored Hstored Hne. repeat split.
    + intros Hdiff. rewrite Hget.
      by rewrite (proj2 (gate_closed _ _)) by eauto.
    + intros Hdiff. rewrite Hans.
      by rewrite (proj2 (gate_closed _ _)) by eauto.
    + intros Heq. rewrite Hget, Hstored, Heq. by rewrite gate_open_equal.
    + intros Heq. apply connectionAnswer_past_check; try done.
      intros s Hs _. fold pp. congruence.
  - intros Hempty. apply truthy_false in Hempty. split.
    + rewrite Hget. by rewrite gate_open_falsy.
    + apply connectionAnswer_past_check; try done.
      intros s Hs Hne. destruct (truthy_false (fields !! "password")) as [H _].
      destruct (H Hempty); congruence.
Qed.

(** C3, at a name with a slash: the name "a/b" passes validation, but the
    client builds no reference from it and throws where [connectionOffer]
    asks for one, before the [try] block: the function ends in that error,
    sends no response and stores nothing, and the [getOffer] that follows
    ends the same way. *)
Example offer_not_published_under_slash_name :
  isValidConnectionName "a/b" = true
  ∧ ∃ error,
      doc "connections" "a/b" = Rejected error
      ∧ connectionOffer connection_wording
          (request_of [("connectionName", "a/b"); ("offer", "v=0")])
          empty_backend
        = (Rejected error, empty_backend)
      ∧ getOffer connection_wording
          (request_of [("connectionName", "a/b")])
          empty_backend
        = (Rejected error, empty_backend).
Proof.
  split; [reflexivity|]. eexists. repeat split; vm_compute; reflexivity.
Qed.

(** X17: for a valid identifier from which the client builds a reference
    and a non-empty offer, on any documents, [connectionOffer] without a
    password followed by [getOffer] without a password succeeds and sends
    back exactly the published offer. *)
Theorem offer_round_trip (W : Wording) (publish fetch : Request)
    (fs : Firestore) (id p : string) :
  isValidConnectionName id = true →
  names_document (collection_name W) id = true →
  p ≠ "" →
  body publish !! name_key W = Some id →
  body publish !! "password" = None →
  body publish !! "offer" = Some p →
  query fetch !! name_key W = Some id →
  query fetch !! "password" = None →
  fault_at 0 fs = None →
  fault_at 1 fs = None →
  ∃ fs',
    connectionOffer W publish fs
    = (Fulfilled {| status := 200; json := JsonSuccess (Some "Success") |},
       fs')
    ∧ fst (getOffer W fetch fs')
      = Fulfilled {| status := 200; json := JsonSuccess (Some p) |}.
Proof.
  intros Hvalid Hdoc Hp Hname Hpw Hoffer Hname' Hpw' Hf0 Hf1.
  eexists. split.
  - rewrite (connectionOffer_valid_offer W publish fs id) by
      (try done; rewrite Hoffer; by apply truthy_Some_true).
    by rewrite Hf0.
  - erewrite getOffer_existing;
      [| done | done
       | by rewrite fault_at_merge_into, fault_at_advance
       | by apply merge_into_lookup_doc].
    rewrite Hpw, Hoffer, Hpw'. simpl.
    rewrite (lookup_union_Some_l _ _ _ ""), (lookup_union_Some_l _ _ _ p);
      by simplify_map_eq.
Qed.

(** C5: publishing an offer again on an identifier whose record already
    exists overwrites the offer and password fields of the record and
    leaves its answer field, like every other field and every other
    record, as it was. *)
Theorem connectionOffer_keeps_answer (W : Wording) (request : Request)
    (fs : Firestore) (id p : string) (fields : ConnectionData) :
  body request !! name_key W = Some id →
  isValidConnectionName id = true →
  body request !! "offer" = Some p →
  p ≠ "" →
  fault_at 0 fs = None →
  docs fs !! doc (collection_name W) id = Some fields →
  ∃ fs' fields',
    connectionOffer W request fs
    = (Fulfilled {| status := 200; json := JsonSuccess (Some "Success") |},
       fs')
    ∧ docs fs' !! doc (collection_name W) id = Some fields'
    ∧ fields' !! "offer" = Some p
    ∧ fields' !! "password" = Some (or_empty (body request !! "password"))
    ∧ fields' !! "answer" = fields !! "answer"
    ∧ (∀ key, key ≠ "offer" → key ≠ "password" →
              fields' !! key = fields !! key)
    ∧ (∀ ref, ref ≠ doc (collection_name W) id →
              docs fs' !! ref = docs fs !! ref).
Proof.
  intros Hname Hvalid Hoffer Hp Hf0 Hrecord.
  apply lookup_doc_Some in Hrecord as [Hdoc Hfields].
  eexists _, _. split; [|split; [by apply merge_into_lookup_doc|]].
  - rewrite (connectionOffer_valid_offer W request fs id) by
      (try done; rewrite Hoffer; by apply truthy_Some_true).
    by rewrite Hf0.
  - split; [|split; [|split; [|split]]].
    1-4: simpl; rewrite Hfields, Hoffer; simpl.
    + apply lookup_union_Some_l. by simplify_map_eq.
    + apply lookup_union_Some_l. by simplify_map_eq.
    + apply lookup_union_r. by simplify_map_eq.
    + intros key Ho Hpw. apply lookup_union_r. by simplify_map_eq.
    + intros ref Href. by rewrite merge_into_lookup_other.
Qed.

(** C7: on an existing record with an offer and a passing password check,
    [connectionAnswer] with an absent or empty answer succeeds and stores
    the empty string as the answer; [connectionOffer] with an absent or
    empty offer fails instead with "Invalid offer" (403) and writes
    nothing. *)
Theorem connectionAnswer_accepts_empty_answer (W : Wording)
    (publish : Request) (fs : Firestore) (id : string)
    (fields : ConnectionData) :
  body publish !! name_key W = Some id →
  isValidConnectionName id = true →
  fault_at 0 fs = None →
  fault_at 1 fs = None →
  docs fs !! doc (collection_name W) id = Some fields →
  truthy (fields !! "offer") = true →
  password_passes fields (or_empty (body publish !! "password")) →
  body publish !! "answer" = None ∨ body publish !! "answer" = Some "" →
  (∃ fs' fields',
     connectionAnswer W publish fs
     = (Fulfilled {| status := 200; json := JsonSuccess (Some "Success") |},
        fs')
     ∧ docs fs' !! doc (collection_name W) id = Some fields'
     ∧ fields' !! "answer" = Some "")
  ∧ (∀ (request : Request) (fs0 : Firestore),
       body request !! name_key W = Some id →
       body request !! "offer" = None ∨ body request !! "offer" = Some "" →
       connectionOffer W request fs0
       = (Fulfilled {| status := 403; json := JsonError "Invalid offer" |},
          fs0)).
Proof.
  intros Hname Hvalid Hf0 Hf1 Hrecord Hoffer Hpass Hanswer. split.
  - apply password_passes_gate in Hpass.
    pose proof (lookup_doc_Some _ _ _ _ Hrecord) as [Hdoc Hfields].
    eexists _, _. split; [|split; [by apply merge_into_lookup_doc|]].
    + rewrite (connectionAnswer_existing W publish fs id)
        with (fields := fields) by done.
      by rewrite Hpass, Hoffer, Hf1.
    + apply lookup_union_Some_l.
      destruct Hanswer as [-> | ->]; by simplify_map_eq.
  - intros request fs0 Hname0 Hoffer0.
    apply connectionOffer_invalid_offer with (id := id); try done.
    by apply truthy_false.
Qed.

(** *** Failures of the backend *)



(** X16: a failed read is not caught.  In [getOffer], [connectionAnswer]
    and [getAnswer] the snapshot is awaited before the [try] block, so on a
    valid identifier, from which the client has built the reference, the
    rejection of the read leaves the function and no response is sent by
    it. *)
Lemma read_failure_escapes (W : Wording) (op : Operation)
    (request : Request) (fs : Firestore) (cause : string) :
  op ≠ PublishOffer →
  isValidConnectionName (or_empty (parameters op request !! name_key W))
  = true →
  names_document (collection_name W)
    (or_empty (parameters op request !! name_key W)) = true →
  fault_at 0 fs = Some cause →
  fst (handler W op request fs) = Rejected cause.
Proof.
  intros Hop Hvalid Hdoc Hfault.
  destruct op; [done| | |]; simpl in *;
    [unfold getOffer | unfold connectionAnswer | unfold getAnswer];
    simpl; rewrite Hvalid; simpl;
    rewrite (names_document_doc _ _ Hdoc), ?bind_evaluate_fulfilled;
    by erewrite bind_rejected by (by apply doc_get_rejects).
Qed.

(** C1, at a failing read: with a backend whose read rejects with
    "UNAVAILABLE", [getOffer], [connectionAnswer] and [getAnswer] on a valid
    identifier end in that rejection and send nothing, where the failing
    write of [connectionOffer] is answered by status 500 with the cause. *)
Example read_failure_not_reported :
  fst (getOffer connection_wording
         (request_of [("connectionName", "room")])
         (backend_of "room" [("offer", "v=0")] [Some "UNAVAILABLE"]))
  = Rejected "UNAVAILABLE"
  ∧ fst (connectionAnswer connection_wording
           (request_of [("connectionName", "room"); ("answer", "v=1")])
           (backend_of "room" [("offer", "v=0")] [Some "UNAVAILABLE"]))
    = Rejected "UNAVAILABLE"
  ∧ fst (getAnswer connection_wording
           (request_of [("connectionName", "room")])
           (backend_of "room" [("offer", "v=0")] [Some "UNAVAILABLE"]))
    = Rejected "UNAVAILABLE"
  ∧ fst (connectionOffer connection_wording
           (request_of [("connectionName", "room"); ("offer", "v=0")])
           (backend_of "room" [] [Some "UNAVAILABLE"]))
    = Fulfilled {| status := 500; json := JsonError "Error: UNAVAILABLE" |}.
Proof. repeat split; vm_compute; reflexivity. Qed.

(** *** The response envelope *)

Lemma blank_truthy v : blank v = negb (truthy v).
Proof.
  unfold blank. destruct (truthy v) eqn:Ht; simpl.
  - apply bool_decide_eq_false. rewrite <-truthy_false. congruence.
  - apply bool_decide_eq_true. by apply truthy_false.
Qed.

Lemma password_mismatch_gate fields supplied :
  password_mismatch fields supplied
  = truthy (fields !! "password")
    && bool_decide (Some supplied ≠ fields !! "password").
Proof.
  unfold password_mismatch. destruct (fields !! "password") as [s|]; [|done].
  simpl. apply eq_true_iff_eq.
  rewrite andb_true_iff, !bool_decide_eq_true.
  split; intros [? ?]; split; congruence.
Qed.

Lemma handler_invalid_name (W : Wording) (op : Operation)
    (request : Request) (fs : Firestore) :
  isValidConnectionName (or_empty (parameters op request !! name_key W))
  = false →
  handler W op request fs
  = (Fulfilled {| status := 403; json := JsonError (invalid_name W) |}, fs).
Proof.
  intros Hinvalid.
  destruct op; simpl in *;
    [unfold connectionOffer | unfold getOffer
     | unfold connectionAnswer | unfold getAnswer];
    simpl; by rewrite Hinvalid.
Qed.

Lemma handler_no_record (W : Wording) (op : Operation) (request : Request)
    (fs : Firestore) :
  op ≠ PublishOffer →
  isValidConnectionName (or_empty (parameters op request !! name_key W))
  = true →
  names_document (collection_name W)
    (or_empty (parameters op request !! name_key W)) = true →
  fault_at 0 fs = None →
  docs fs !! doc (collection_name W)
               (or_empty (parameters op request !! name_key W)) = None →
  fst (handler W op request fs)
  = Fulfilled
      (match op with
       | FetchAnswer =>
           {| status := 403; json := JsonError (does_not_exist W) |}
       | _ => {| status := 404; json := JsonError (offer_not_found W) |}
       end).
Proof.
  intros Hop Hvalid Hdoc Hread Habsent.
  rewrite lookup_doc_reference in Habsent by done.
  destruct op; [done| | |]; simpl in *;
    [unfold getOffer | unfold connectionAnswer | unfold getAnswer];
    simpl; rewrite Hvalid; simpl;
    rewrite (names_document_doc _ _ Hdoc), ?bind_evaluate_fulfilled;
    erewrite bind_fulfilled by (by apply doc_get_fulfils);
    by rewrite Habsent.
Qed.

Lemma valid_name_given (given : gmap string string) (key : string) :
  isValidConnectionName (or_empty (given !! key)) = true →
  given !! key = Some (or_empty (given !! key)).
Proof. by destruct (given !! key). Qed.

(** C9, as worded, fails where [getOffer] reads a record without an offer
    field: the success it sends carries no data. *)
Lemma getOffer_sends_no_data :
  fst (getOffer connection_wording
         (request_of [("connectionName", "room")])
         (backend_of "room" [("answer", "v=1")] []))
  = Fulfilled {| status := 200; json := JsonSuccess None |}
  ∧ ¬ enveloped_as_described {| status := 200; json := JsonSuccess None |}.
Proof.
  split; [vm_compute; reflexivity|].
  intros [[_ [data Hdata]] | (kind & message & _ & Hjson)]; discriminate.
Qed.

(** C9, amended: on requests and records whose values are strings,
    whenever the client builds the reference the function asks for and the
    read of the backend, if the operation makes one, does not fail, the
    function sends the envelope of the operation's outcome: status 200 with
    the data on success, the data being the acknowledgement or the field
    read from the record; on failure the message with status 403 for an
    invalid identifier, an invalid offer, a password mismatch, a missing
    offer and the missing session of fetch-answer, 404 for the missing
    session of fetch-offer and publish-answer and for a missing answer, and
    500 for a failed write.  A success carries no data only where
    fetch-offer read a record without an offer field. *)
Theorem response_envelope (W : Wording) (op : Operation) (request : Request)
    (fs : Firestore) :
  (op ≠ PublishOffer → fault_at 0 fs = None) →
  (isValidConnectionName (named W op request) = true →
   (op = PublishOffer → truthy (body request !! "offer") = true) →
   names_document (collection_name W) (named W op request) = true) →
  fst (handler W op request fs)
  = Fulfilled (envelope W (outcome W op request fs))
  ∧ (outcome W op request fs = Payload None →
     op = FetchOffer
     ∧ ∃ fields,
         docs fs !! doc (collection_name W)
                      (or_empty (query request !! name_key W)) = Some fields
         ∧ fields !! "offer" = None).
Proof.
  intros Hread Hbuilt. unfold outcome. unfold named in Hbuilt.
  set (given := parameters op request) in *.
  set (id := or_empty (given !! name_key W)) in *.
  destruct (isValidConnectionName id) eqn:Hvalid.
  - rewrite bool_decide_true by (by apply valid_name_length).
    pose proof (valid_name_given given (name_key W) Hvalid) as Hname.
    fold id in Hname. specialize (Hbuilt eq_refl).
    destruct op; subst given; simpl in *.
    + (* publish-offer *)
      rewrite blank_truthy. split; [|by repeat case_match].
      destruct (truthy (body request !! "offer")) eqn:Hoffer; simpl.
      * rewrite (connectionOffer_valid_offer W request fs id) by auto.
        by destruct (fault_at 0 fs).
      * by rewrite (connectionOffer_invalid_offer W request fs id).
    + (* fetch-offer *)
      assert (names_document (collection_name W) id = true) as Hdoc
        by (by apply Hbuilt).
      destruct (docs fs !! doc (collection_name W) id) as [fields|] eqn:Hrec.
      * rewrite (getOffer_existing W request fs id fields) by auto.
        rewrite password_mismatch_gate. simpl.
        destruct (_ && _); simpl; [done|].
        split; [done|]. intros [= Hnone]. eauto.
      * split; [|done].
        by apply (handler_no_record W FetchOffer request fs); auto.
    + (* publish-answer *)
      assert (names_document (collection_name W) id = true) as Hdoc
        by (by apply Hbuilt).
      destruct (docs fs !! doc (collection_name W) id) as [fields|] eqn:Hrec.
      * rewrite (connectionAnswer_existing W request fs id)
          with (fields := fields) by auto.
        rewrite password_mismatch_gate, blank_truthy.
        split; [|by repeat case_match].
        destruct (_ && _); simpl; [done|].
        destruct (truthy (fields !! "offer")); simpl; [|done].
        by destruct (fault_at 1 fs).
      * split; [|done].
        by apply (handler_no_record W PublishAnswer request fs); auto.
    + (* fetch-answer *)
      assert (names_document (collection_name W) id = true) as Hdoc
        by (by apply Hbuilt).
      destruct (docs fs !! doc (collection_name W) id) as [fields|] eqn:Hrec.
      * rewrite (getAnswer_existing W request fs id fields) by auto.
        rewrite blank_truthy. simpl.
        destruct (truthy (fields !! "answer")) eqn:Ht; simpl; [|done].
        split; [done|]. intros [= Hnone]. by rewrite Hnone in Ht.
      * split; [|done].
        by apply (handler_no_record W FetchAnswer request fs); auto.
  - rewrite bool_decide_false.
    + split; [|done]. by rewrite handler_invalid_name.
    + rewrite <-valid_name_length. congruence.
Qed.

(** *** The theorems at sample requests *)

(** The later revision, on its own collection and request key: an offer
    published under a session identifier is read back. *)
Example session_revision_round_trip :
  isValidSessionID "room" = true
  ∧ fst (getOffer session_wording
           (request_of [("sessionID", "room")])
           (snd (sessionOffer
                   (request_of [("sessionID", "room"); ("offer", "v=0")])
                   {| docs := ∅; pending := []; calls := [] |})))
    = Fulfilled {| status := 200; json := JsonSuccess (Some "v=0") |}.
Proof. split; vm_compute; reflexivity. Qed.

(** A slash at the end of a name is dropped by the client: an offer
    published under "room/" is the offer of the document "room". *)
Example names_share_a_document :
  doc "connections" "room/" = doc "connections" "room"
  ∧ fst (getOffer connection_wording
           (request_of [("connectionName", "room")])
           (snd (connectionOffer connection_wording
                   (request_of [("connectionName", "room/");
                                ("offer", "v=0")])
                   empty_backend)))
    = Fulfilled {| status := 200; json := JsonSuccess (Some "v=0") |}.
Proof. split; vm_compute; reflexivity. Qed.

Lemma getAnswer_without_password_witness :
  fst (getAnswer connection_wording
         (request_of [("connectionName", "room")])
         (backend_of "room" guarded_record []))
  = Fulfilled {| status := 200; json := JsonSuccess (Some "v=1") |}.
Proof.
  refine (proj1 (getAnswer_without_password connection_wording _ _ "room"
                   (list_to_map guarded_record) "secret" "v=1"
                   _ _ _ _ _ _ _ _));
    (vm_compute; reflexivity) || discriminate.
Defined.

Lemma getAnswer_answer_not_found_witness :
  fst (getAnswer connection_wording
         (request_of [("connectionName", "room")])
         (backend_of "room" open_record []))
  = Fulfilled {| status := 404;
                 json := JsonError "Connection answer not found" |}.
Proof.
  refine (proj1 (getAnswer_answer_not_found connection_wording _ _ "room"
                   (list_to_map open_record) _ _ _ _) _);
    try (vm_compute; reflexivity).
  left. vm_compute; reflexivity.
Defined.

Lemma getOffer_no_offer_check_witness :
  fst (getOffer connection_wording
         (request_of [("connectionName", "room")])
         (backend_of "room" [("answer", "v=1")] []))
  = Fulfilled {| status := 200; json := JsonSuccess None |}
  ∧ fst (connectionAnswer connection_wording
           (request_of [("connectionName", "room")])
           (backend_of "room" [("answer", "v=1")] []))
    = Fulfilled {| status := 403;
                   json := JsonError "Connection offer not found" |}.
Proof.
  refine (getOffer_no_offer_check connection_wording _ _ _ "room"
            (list_to_map [("answer", "v=1")]) _ _ _ _ _ _ _ _);
    try (vm_compute; reflexivity).
  - left. vm_compute; reflexivity.
  - intros stored Hstored. vm_compute in Hstored. discriminate.
  - intros stored Hstored. vm_compute in Hstored. discriminate.
Defined.

Lemma password_gate_witness :
  fst (getOffer connection_wording
         (request_of [("connectionName", "room"); ("password", "guess")])
         (backend_of "room" guarded_record []))
  = Fulfilled {| status := 403;
                 json := JsonError "Invalid or incorrect password" |}.
Proof.
  refine (proj1 (proj1 (password_gate connection_wording _
                          (request_of [("connectionName", "room")])
                          _ "room" (list_to_map guarded_record) _ _ _ _ _)
                   "secret" _ _) _);
    (vm_compute; reflexivity) || (vm_compute; discriminate).
Defined.

Lemma offer_round_trip_witness :
  ∃ fs',
    connectionOffer connection_wording
      (request_of [("connectionName", "room"); ("offer", "v=0")])
      (backend_of "lobby" guarded_record [])
    = (Fulfilled {| status := 200; json := JsonSuccess (Some "Success") |},
       fs')
    ∧ fst (getOffer connection_wording
             (request_of [("connectionName", "room")]) fs')
      = Fulfilled {| status := 200; json := JsonSuccess (Some "v=0") |}.
Proof.
  refine (offer_round_trip connection_wording _ _ _ "room" "v=0"
            _ _ _ _ _ _ _ _ _ _);
    (vm_compute; reflexivity) || discriminate.
Defined.

Lemma connectionOffer_keeps_answer_witness :
  ∃ fs' fields',
    connectionOffer connection_wording
      (request_of [("connectionName", "room"); ("offer", "v=2")])
      (backend_of "room" guarded_record [])
    = (Fulfilled {| status := 200; json := JsonSuccess (Some "Success") |},
       fs')
    ∧ docs fs' !! doc "connections" "room" = Some fields'
    ∧ fields' !! "offer" = Some "v=2"
    ∧ fields' !! "password" = Some ""
    ∧ fields' !! "answer" = Some "v=1".
Proof.
  destruct (connectionOffer_keeps_answer connection_wording
              (request_of [("connectionName", "room"); ("offer", "v=2")])
              (backend_of "room" guarded_record []) "room" "v=2"
              (list_to_map guarded_record))
    as (fs' & fields' & Hsent & Hrecord & Hoffer & Hpassword & Hanswer & _);
    try ((vm_compute; reflexivity) || discriminate).
  exists fs', fields'. repeat split; assumption.
Defined.

Lemma connectionAnswer_accepts_empty_answer_witness :
  ∃ fs' fields',
    connectionAnswer connection_wording
      (request_of [("connectionName", "room")])
      (backend_of "room" open_record [])
    = (Fulfilled {| status := 200; json := JsonSuccess (Some "Success") |},
       fs')
    ∧ docs fs' !! doc "connections" "room" = Some fields'
    ∧ fields' !! "answer" = Some "".
Proof.
  refine (proj1 (connectionAnswer_accepts_empty_answer connection_wording
                   _ _ "room" (list_to_map open_record) _ _ _ _ _ _ _ _));
    try (vm_compute; reflexivity).
  - intros stored Hstored Hne. vm_compute in Hstored.
    injection Hstored as <-. by destruct Hne.
  - left. vm_compute; reflexivity.
Defined.

Lemma response_envelope_witness :
  fst (handler connection_wording FetchAnswer
         (request_of [("connectionName", "lobby")])
         (backend_of "room" guarded_record []))
  = Fulfilled {| status := 403;
                 json := JsonError "Connection does not exist" |}.
Proof.
  refine (proj1 (response_envelope connection_wording FetchAnswer
                   (request_of [("connectionName", "lobby")])
                   (backend_of "room" guarded_record []) _ _));
    intros; vm_compute; reflexivity.
Defined.

(** ** Further properties of the four functions *)

(** *** What a function does to the backend *)

(** The documents after a function ran: unchanged, or the addressed
    document merged with the offer object of a valid [connectionOffer], or
    with the answer object of a [connectionAnswer] that found a record with
    an offer and passed its password check. *)
Lemma handler_documents (W : Wording) (op : Operation) (request : Request)
    (fs : Firestore) :
  let ref := addressed W op request in
  let fs' := snd (handler W op request fs) in
  docs fs' = docs fs
  ∨ (op = PublishOffer
     ∧ truthy (body request !! "offer") = true
     ∧ docs fs'
       = <[ref := {[ "password" := or_empty (body request !! "password");
                     "offer" := or_empty (body request !! "offer") ]}
                  ∪ default ∅ (docs fs !! ref)]> (docs fs))
  ∨ (op = PublishAnswer
     ∧ ∃ fields,
         docs fs !! ref = Some fields
         ∧ truthy (fields !! "offer") = true
         ∧ password_passes fields (or_empty (body request !! "password"))
         ∧ docs fs'
           = <[ref := {[ "answer" := or_empty (body request !! "answer") ]}
                      ∪ fields]> (docs fs)).
Proof.
  intros ref fs'. subst ref fs'. unfold addressed, named, reference.
  destruct op; simpl;
    [unfold connectionOffer | unfold getOffer
     | unfold connectionAnswer | unfold getAnswer]; simpl;
    (destruct (doc _ _) as [built|error];
     [|try rewrite offer_object_offer;
       destruct (isValidConnectionName _); [|by left];
       try (destruct (truthy (Some _)); [|by left]); by left]).
  - rewrite offer_object_offer.
    destruct (isValidConnectionName _); [|by left].
    destruct (truthy (Some (or_empty (body request !! "offer")))) eqn:Ht;
      [|by left].
    simpl. unfold try_catch, mbind, async_bind, evaluate, doc_set_merge.
    destruct (fault_at 0 fs); simpl; [by left|].
    right; left. repeat split; try done.
    by destruct (body request !! "offer").
  - destruct (isValidConnectionName _); simpl; [|by left].
    unfold try_catch, mbind, async_bind, evaluate, doc_get.
    destruct (fault_at 0 fs); simpl; [by left|].
    destruct (docs fs !! _) as [fields|]; simpl; [|by left].
    by destruct (_ && _); left.
  - destruct (isValidConnectionName _); simpl; [|by left].
    unfold try_catch, mbind, async_bind, evaluate, doc_get.
    destruct (fault_at 0 fs); simpl; [by left|].
    destruct (docs fs !! _) as [fields|] eqn:Hrecord; simpl; [|by left].
    destruct (_ && _) eqn:Hgate; simpl; [by left|].
    destruct (truthy (fields !! "offer")) eqn:Hoffer; simpl; [|by left].
    unfold doc_set_merge. rewrite fault_at_advance.
    destruct (fault_at 1 fs); simpl; [by left|].
    right; right. split; [done|]. exists fields.
    rewrite Hrecord. repeat split; try done.
    by apply password_passes_gate.
  - destruct (isValidConnectionName _); simpl; [|by left].
    unfold try_catch, mbind, async_bind, evaluate, doc_get.
    destruct (fault_at 0 fs); simpl; [by left|].
    destruct (docs fs !! _) as [fields|]; simpl; [|by left].
    by destruct (truthy _); left.
Qed.

(** X13: no function calls the backend again after a call of its own: a
    [connectionOffer] makes at most one write, the fetching functions at
    most one read, and [connectionAnswer] at most one read followed, only
    when the read succeeded, by at most one write, all on the document the
    request addresses.  Each call uses up one outcome of the backend. *)
Theorem handler_calls (W : Wording) (op : Operation) (request : Request)
    (fs : Firestore) :
  let ref := addressed W op request in
  let fs' := snd (handler W op request fs) in
  ∃ made,
    calls fs' = calls fs ++ made
    ∧ pending fs' = drop (length made) (pending fs)
    ∧ match op with
      | PublishOffer => made = [] ∨ ∃ data, made = [CallSet ref data]
      | FetchOffer | FetchAnswer => made = [] ∨ made = [CallGet ref]
      | PublishAnswer =>
          made = [] ∨ made = [CallGet ref]
          ∨ fault_at 0 fs = None
            ∧ ∃ data, made = [CallGet ref; CallSet ref data]
      end.
Proof.
  intros ref fs'. subst ref fs'. unfold addressed, named, reference.
  assert (∀ l : list (option string), tail (tail l) = drop 2 l) as Htail2
    by (by intros [|? [|? ?]]).
  assert (∀ l : list (option string), tail l = drop 1 l) as Htail1
    by (by intros [|? ?]).
  destruct op; simpl;
    [unfold connectionOffer | unfold getOffer
     | unfold connectionAnswer | unfold getAnswer]; simpl;
    (destruct (doc _ _) as [built|error];
     [|exists []; rewrite app_nil_r; try rewrite offer_object_offer;
       destruct (isValidConnectionName _); [|by auto];
       try (destruct (truthy (Some _)); [|by auto]); by auto]).
  - rewrite offer_object_offer.
    destruct (isValidConnectionName _);
      [|exists []; by rewrite app_nil_r; auto].
    destruct (truthy (Some (or_empty (body request !! "offer"))));
      [|exists []; by rewrite app_nil_r; auto].
    simpl. unfold try_catch, mbind, async_bind, evaluate, doc_set_merge.
    destruct (fault_at 0 fs); simpl; eexists [_]; eauto.
  - destruct (isValidConnectionName _); simpl;
      [|exists []; by rewrite app_nil_r; auto].
    unfold try_catch, mbind, async_bind, evaluate, doc_get.
    destruct (fault_at 0 fs); simpl; [eexists [_]; eauto|].
    destruct (docs fs !! _) as [fields|]; simpl; [|eexists [_]; eauto].
    destruct (_ && _); eexists [_]; eauto.
  - destruct (isValidConnectionName _); simpl;
      [|exists []; by rewrite app_nil_r; auto].
    unfold try_catch, mbind, async_bind, evaluate, doc_get.
    destruct (fault_at 0 fs) eqn:Hread; simpl; [eexists [_]; eauto|].
    destruct (docs fs !! _) as [fields|]; simpl; [|eexists [_]; eauto].
    destruct (_ && _); simpl; [eexists [_]; eauto|].
    destruct (truthy (fields !! "offer")); simpl; [|eexists [_]; eauto].
    unfold doc_set_merge. rewrite fault_at_advance.
    destruct (fault_at 1 fs); simpl; eexists [_; _];
      rewrite <-app_assoc, Htail2; eauto 10.
  - destruct (isValidConnectionName _); simpl;
      [|exists []; by rewrite app_nil_r; auto].
    unfold try_catch, mbind, async_bind, evaluate, doc_get.
    destruct (fault_at 0 fs); simpl; [eexists [_]; eauto|].
    destruct (docs fs !! _) as [fields|]; simpl; [|eexists [_]; eauto].
    destruct (truthy _); eexists [_]; eauto.
Qed.

(** The fetching functions and [connectionAnswer] after a read that did
    not fail, whatever the read found. *)
Lemma getOffer_read (W : Wording) (request : Request) (fs : Firestore) :
  let ref := addressed W FetchOffer request in
  isValidConnectionName (or_empty (query request !! name_key W)) = true →
  names_document (collection_name W)
    (or_empty (query request !! name_key W)) = true →
  fault_at 0 fs = None →
  getOffer W request fs
  = (Fulfilled
       (match docs fs !! ref with
        | Some fields =>
            if truthy (fields !! "password")
               && bool_decide (Some (or_empty (query request !! "password"))
                               ≠ fields !! "password")
            then {| status := 403;
                    json := JsonError "Invalid or incorrect password" |}
            else {| status := 200; json := JsonSuccess (fields !! "offer") |}
        | None => {| status := 404; json := JsonError (offer_not_found W) |}
        end),
     advance (CallGet ref) fs).
Proof.
  intros ref Hvalid Hdoc Hread. unfold getOffer. simpl. rewrite Hvalid. simpl.
  rewrite (names_document_doc _ _ Hdoc).
  erewrite bind_fulfilled by (by apply doc_get_fulfils).
  subst ref. unfold addressed, named, try_catch. simpl.
  destruct (docs fs !! _) as [fields|]; [|done]. by destruct (_ && _).
Qed.

Lemma getAnswer_read (W : Wording) (request : Request) (fs : Firestore) :
  let ref := addressed W FetchAnswer request in
  isValidConnectionName (or_empty (query request !! name_key W)) = true →
  names_document (collection_name W)
    (or_empty (query request !! name_key W)) = true →
  fault_at 0 fs = None →
  getAnswer W request fs
  = (Fulfilled
       (match docs fs !! ref with
        | Some fields =>
            if truthy (fields !! "answer")
            then {| status := 200; json := JsonSuccess (fields !! "answer") |}
            else {| status := 404; json := JsonError (answer_not_found W) |}
        | None => {| status := 403; json := JsonError (does_not_exist W) |}
        end),
     advance (CallGet ref) fs).
Proof.
  intros ref Hvalid Hdoc Hread. unfold getAnswer. simpl. rewrite Hvalid. simpl.
  rewrite (names_document_doc _ _ Hdoc).
  erewrite bind_fulfilled by (by apply doc_get_fulfils).
  subst ref. unfold addressed, named, try_catch. simpl.
  destruct (docs fs !! _) as [fields|]; [|done]. by destruct (truthy _).
Qed.

Lemma connectionAnswer_no_record (W : Wording) (request : Request)
    (fs : Firestore) :
  let ref := addressed W PublishAnswer request in
  isValidConnectionName (or_empty (body request !! name_key W)) = true →
  names_document (collection_name W)
    (or_empty (body request !! name_key W)) = true →
  fault_at 0 fs = None →
  docs fs !! ref = None →
  connectionAnswer W request fs
  = (Fulfilled {| status := 404; json := JsonError (offer_not_found W) |},
     advance (CallGet ref) fs).
Proof.
  intros ref Hvalid Hdoc Hread Hnone. unfold connectionAnswer. simpl.
  rewrite Hvalid. simpl.
  rewrite (names_document_doc _ _ Hdoc), bind_evaluate_fulfilled.
  erewrite bind_fulfilled by (by apply doc_get_fulfils).
  subst ref. unfold addressed, named in *. simpl in *.
  by rewrite Hnone.
Qed.

Lemma handler_read_rejected (W : Wording) (op : Operation)
    (request : Request) (fs : Firestore) (cause : string) :
  op ≠ PublishOffer →
  isValidConnectionName (or_empty (parameters op request !! name_key W))
  = true →
  names_document (collection_name W)
    (or_empty (parameters op request !! name_key W)) = true →
  fault_at 0 fs = Some cause →
  handler W op request fs
  = (Rejected cause, advance (CallGet (addressed W op request)) fs).
Proof.
  intros Hop Hvalid Hdoc Hfault.
  destruct op; [done| | |]; simpl in *;
    [unfold getOffer | unfold connectionAnswer | unfold getAnswer];
    simpl; rewrite Hvalid; simpl;
    rewrite (names_document_doc _ _ Hdoc), ?bind_evaluate_fulfilled;
    by erewrite bind_rejected by (by apply doc_get_rejects).
Qed.

(** A name that passed validation and from which the client builds no
    reference: the client's error leaves the function where it asks for the
    reference, before any [try] block and any call on the backend. *)
Lemma handler_refused (W : Wording) (op : Operation) (request : Request)
    (fs : Firestore) (error : string) :
  isValidConnectionName (named W op request) = true →
  (op = PublishOffer → truthy (body request !! "offer") = true) →
  doc (collection_name W) (named W op request) = Rejected error →
  handler W op request fs = (Rejected error, fs).
Proof.
  unfold named. intros Hvalid Hoffer Hdoc.
  destruct op; simpl in *;
    [unfold connectionOffer | unfold getOffer
     | unfold connectionAnswer | unfold getAnswer];
    simpl; rewrite Hvalid; simpl; rewrite ?offer_object_offer, Hdoc;
    [|done..].
  specialize (Hoffer eq_refl).
  destruct (body request !! "offer") as [o|]; [|done]. simpl in *.
  by rewrite Hoffer.
Qed.

(** X18: a name that passes validation but from which the client builds
    no reference, such as "a/b", makes each function end in the client's
    error where it asks for the reference: no response is sent, the backend
    is not called and is left as it was.  [connectionOffer] comes this far
    only with a non-empty offer. *)
Theorem refused_name_escapes (W : Wording) (op : Operation)
    (request : Request) (fs : Firestore) (error : string) :
  isValidConnectionName (named W op request) = true →
  (op = PublishOffer → truthy (body request !! "offer") = true) →
  doc (collection_name W) (named W op request) = Rejected error →
  handler W op request fs = (Rejected error, fs).
Proof. apply handler_refused. Qed.

(** *** Requests that are turned away *)

(** X1: a request whose identifier is missing, empty or longer than 100
    characters is answered by every function with the invalid-name error
    (403) before any call on the backend: the backend is left as it was. *)
Theorem invalid_name_rejected (W : Wording) (op : Operation)
    (request : Request) (fs : Firestore) :
  parameters op request !! name_key W = None
  ∨ (∃ id, parameters op request !! name_key W = Some id
           ∧ (id = "" ∨ (100 < String.length id)%nat)) →
  handler W op request fs
  = (Fulfilled {| status := 403; json := JsonError (invalid_name W) |}, fs).
Proof.
  intros Hname. apply handler_invalid_name.
  destruct Hname as [-> | (id & -> & Hid)]; [done|]. simpl.
  apply not_true_is_false. rewrite valid_name_length.
  destruct Hid as [-> | Hlong]; simpl; lia.
Qed.

(** X4: on a valid identifier from which the client builds a reference
    and for which no record exists, [getOffer] and [connectionAnswer] answer
    "offer not found" (404) and [getAnswer] "does not exist" (403), after
    the one read; [connectionAnswer] writes nothing, so no record comes to
    exist. *)
Theorem missing_session_reported (W : Wording) (op : Operation)
    (request : Request) (fs : Firestore) :
  op ≠ PublishOffer →
  isValidConnectionName (or_empty (parameters op request !! name_key W))
  = true →
  names_document (collection_name W)
    (or_empty (parameters op request !! name_key W)) = true →
  fault_at 0 fs = None →
  docs fs !! addressed W op request = None →
  handler W op request fs
  = (Fulfilled
       (match op with
        | FetchAnswer =>
            {| status := 403; json := JsonError (does_not_exist W) |}
        | _ => {| status := 404; json := JsonError (offer_not_found W) |}
        end),
     advance (CallGet (addressed W op request)) fs)
  ∧ docs (snd (handler W op request fs)) !! addressed W op request = None.
Proof.
  intros Hop Hvalid Hdoc Hread Hnone.
  assert (handler W op request fs
          = (Fulfilled
               (match op with
                | FetchAnswer =>
                    {| status := 403; json := JsonError (does_not_exist W) |}
                | _ => {| status := 404;
                          json := JsonError (offer_not_found W) |}
                end),
             advance (CallGet (addressed W op request)) fs)) as Hrun.
  { destruct op; [done| | |]; simpl in *.
    - rewrite getOffer_read by done. simpl. by rewrite Hnone.
    - by apply connectionAnswer_no_record.
    - rewrite getAnswer_read by done. simpl. by rewrite Hnone. }
  split; [done|]. by rewrite Hrun.
Qed.

(** *** The fetching functions *)

(** X2: [getOffer] and [getAnswer] never change a document, whatever the
    request and whatever the backend does. *)
Theorem fetch_leaves_documents (W : Wording) (request : Request)
    (fs : Firestore) :
  docs (snd (getOffer W request fs)) = docs fs
  ∧ docs (snd (getAnswer W request fs)) = docs fs.
Proof.
  split.
  - destruct (handler_documents W FetchOffer request fs)
      as [H | [(Hop & _) | (Hop & _)]]; done.
  - destruct (handler_documents W FetchAnswer request fs)
      as [H | [(Hop & _) | (Hop & _)]]; done.
Qed.

(** X3: a fetch asked twice in a row with the same request sends the same
    response both times, the two reads not failing. *)
Theorem fetch_repeatable (W : Wording) (op : Operation) (request : Request)
    (fs : Firestore) :
  op = FetchOffer ∨ op = FetchAnswer →
  fault_at 0 fs = None →
  fault_at 1 fs = None →
  fst (handler W op request (snd (handler W op request fs)))
  = fst (handler W op request fs).
Proof.
  intros Hop Hread0 Hread1.
  destruct (isValidConnectionName
              (or_empty (parameters op request !! name_key W))) eqn:Hvalid;
    [|by rewrite !handler_invalid_name by done].
  destruct (names_document (collection_name W)
              (or_empty (parameters op request !! name_key W))) eqn:Hdoc.
  - assert (fault_at 0 (advance (CallGet (addressed W op request)) fs) = None)
      as Hread by (by rewrite fault_at_advance).
    destruct Hop as [-> | ->]; simpl in *.
    + rewrite (getOffer_read W request fs) by done. simpl.
      by rewrite getOffer_read by done.
    + rewrite (getAnswer_read W request fs) by done. simpl.
      by rewrite getAnswer_read by done.
  - apply names_document_false in Hdoc as [error Hdoc].
    assert (op = PublishOffer → truthy (body request !! "offer") = true)
      as Hop' by (by destruct Hop as [-> | ->]).
    by rewrite !(handler_refused W op request _ error).
Qed.

(** *** What the functions keep *)

(** X8: a function touches no document but the one its request
    addresses, removes no document, and removes no field from a document. *)
Theorem handler_removes_nothing (W : Wording) (op : Operation)
    (request : Request) (fs : Firestore) :
  let fs' := snd (handler W op request fs) in
  (∀ ref, ref ≠ addressed W op request → docs fs' !! ref = docs fs !! ref)
  ∧ (∀ ref fields,
       docs fs !! ref = Some fields →
       ∃ fields',
         docs fs' !! ref = Some fields'
         ∧ ∀ key, is_Some (fields !! key) → is_Some (fields' !! key)).
Proof.
  intros fs'. subst fs'.
  destruct (handler_documents W op request fs)
    as [-> | [(_ & _ & ->) | (_ & old & Hold & _ & _ & ->)]].
  - split; [done|]. intros ref fields Href. by exists fields.
  - split; [intros ref Href; by rewrite lookup_insert_ne|].
    intros ref fields Href.
    destruct (decide (ref = addressed W op request)) as [-> | Hne].
    + rewrite lookup_insert_eq, Href. simpl. eexists. split; [done|].
      intros key Hkey. apply lookup_union_is_Some. by right.
    + rewrite lookup_insert_ne by done. by exists fields.
  - split; [intros ref Href; by rewrite lookup_insert_ne|].
    intros ref fields Href.
    destruct (decide (ref = addressed W op request)) as [-> | Hne].
    + rewrite lookup_insert_eq. eexists. split; [done|].
      intros key Hkey. apply lookup_union_is_Some. right. congruence.
    + rewrite lookup_insert_ne by done. by exists fields.
Qed.

Lemma handler_keeps_offers (W : Wording) (op : Operation) (request : Request)
    (fs : Firestore) :
  offers_present (docs fs) →
  offers_present (docs (snd (handler W op request fs))).
Proof.
  intros Hoffers.
  destruct (handler_documents W op request fs)
    as [-> | [(_ & Hoffer & ->) | (_ & old & Hold & Hoffer & _ & ->)]];
    [done| |]; intros ref fields;
    (destruct (decide (ref = addressed W op request)) as [-> | Hne];
     [rewrite lookup_insert_eq | rewrite lookup_insert_ne by done; by eauto]);
    intros [= <-].
  - erewrite lookup_union_Some_l by (by simplify_map_eq).
    by destruct (body request !! "offer").
  - rewrite lookup_union_r by (by simplify_map_eq). done.
Qed.

(** X9: when every record of the backend holds a non-empty offer, so does
    every record after any sequence of requests was served, whatever the
    requests are and whichever calls on the backend fail. *)
Theorem serve_keeps_offers (W : Wording)
    (requests : list (Operation * Request)) (fs : Firestore) :
  offers_present (docs fs) →
  offers_present (docs (serve W requests fs)).
Proof.
  revert fs. induction requests as [|[op request] requests IH];
    intros fs Hoffers; [done|].
  apply IH. by apply handler_keeps_offers.
Qed.

(** *** Publishing, then fetching *)

Lemma connectionOffer_published (W : Wording) (request : Request)
    (fs : Firestore) (id o : string) :
  body request !! name_key W = Some id →
  isValidConnectionName id = true →
  names_document (collection_name W) id = true →
  body request !! "offer" = Some o →
  o ≠ "" →
  fault_at 0 fs = None →
  ∃ fs',
    connectionOffer W request fs
    = (Fulfilled {| status := 200; json := JsonSuccess (Some "Success") |},
       fs')
    ∧ docs fs' !! doc (collection_name W) id
      = Some ({[ "password" := or_empty (body request !! "password");
                 "offer" := o ]}
              ∪ default ∅ (docs fs !! doc (collection_name W) id))
    ∧ ∀ n, fault_at n fs' = fault_at (S n) fs.
Proof.
  intros Hname Hvalid Hdoc Hoffer Ho Hwrite. eexists. split; [|split].
  - rewrite (connectionOffer_valid_offer W request fs id) by
      (try done; rewrite Hoffer; by apply truthy_Some_true).
    by rewrite Hwrite.
  - rewrite merge_into_lookup_doc by done.
    by rewrite Hoffer, (lookup_doc_reference (docs fs)).
  - intros n. by rewrite fault_at_merge_into, fault_at_advance.
Qed.

Lemma connectionAnswer_published (W : Wording) (request : Request)
    (fs : Firestore) (id : string) (fields : ConnectionData) :
  body request !! name_key W = Some id →
  isValidConnectionName id = true →
  fault_at 0 fs = None →
  fault_at 1 fs = None →
  docs fs !! doc (collection_name W) id = Some fields →
  truthy (fields !! "offer") = true →
  password_passes fields (or_empty (body request !! "password")) →
  ∃ fs',
    connectionAnswer W request fs
    = (Fulfilled {| status := 200; json := JsonSuccess (Some "Success") |},
       fs')
    ∧ docs fs' !! doc (collection_name W) id
      = Some ({[ "answer" := or_empty (body request !! "answer") ]} ∪ fields)
    ∧ (∀ ref, ref ≠ doc (collection_name W) id →
              docs fs' !! ref = docs fs !! ref)
    ∧ ∀ n, fault_at n fs' = fault_at (S (S n)) fs.
Proof.
  intros Hname Hvalid Hread Hwrite Hrecord Hoffer Hpass.
  apply password_passes_gate in Hpass.
  pose proof (lookup_doc_Some _ _ _ _ Hrecord) as [Hdoc Hfields].
  eexists. split; [|split; [|split]].
  - rewrite (connectionAnswer_existing W request fs id) with (fields := fields)
      by done.
    by rewrite Hpass, Hoffer, Hwrite.
  - rewrite merge_into_lookup_doc by done. simpl. by rewrite Hfields.
  - intros ref Href. by rewrite merge_into_lookup_other.
  - intros n. by rewrite fault_at_merge_into, !fault_at_advance.
Qed.

(** X11: a [connectionAnswer] that succeeds sets the answer field of the
    record to the answer sent, replacing an answer published before, and
    changes no other field and no other record. *)
Theorem connectionAnswer_sets_answer_only (W : Wording) (request : Request)
    (fs : Firestore) (id a : string) (fields : ConnectionData) :
  body request !! name_key W = Some id →
  isValidConnectionName id = true →
  body request !! "answer" = Some a →
  fault_at 0 fs = None →
  fault_at 1 fs = None →
  docs fs !! doc (collection_name W) id = Some fields →
  truthy (fields !! "offer") = true →
  password_passes fields (or_empty (body request !! "password")) →
  ∃ fs' fields',
    connectionAnswer W request fs
    = (Fulfilled {| status := 200; json := JsonSuccess (Some "Success") |},
       fs')
    ∧ docs fs' !! doc (collection_name W) id = Some fields'
    ∧ fields' !! "answer" = Some a
    ∧ (∀ key, key ≠ "answer" → fields' !! key = fields !! key)
    ∧ (∀ ref, ref ≠ doc (collection_name W) id →
              docs fs' !! ref = docs fs !! ref).
Proof.
  intros Hname Hvalid Hanswer Hread Hwrite Hrecord Hoffer Hpass.
  destruct (connectionAnswer_published W request fs id fields)
    as (fs' & Hrun & Hnew & Hframe & _); try done.
  exists fs'. eexists. split; [done|]. split; [done|].
  rewrite Hanswer. simpl. split; [|split; [|done]].
  - apply lookup_union_Some_l. by simplify_map_eq.
  - intros key Hkey. apply lookup_union_r. by simplify_map_eq.
Qed.

(** X12: a [connectionAnswer] without an answer, or with the empty one,
    takes back an answer published before: the [getAnswer] that follows
    answers "answer not found" (404). *)
Theorem empty_answer_withdraws (W : Wording) (publish fetch : Request)
    (fs : Firestore) (id : string) (fields : ConnectionData) :
  body publish !! name_key W = Some id →
  query fetch !! name_key W = Some id →
  isValidConnectionName id = true →
  body publish !! "answer" = None ∨ body publish !! "answer" = Some "" →
  fault_at 0 fs = None →
  fault_at 1 fs = None →
  fault_at 2 fs = None →
  docs fs !! doc (collection_name W) id = Some fields →
  truthy (fields !! "offer") = true →
  password_passes fields (or_empty (body publish !! "password")) →
  fst (getAnswer W fetch (snd (connectionAnswer W publish fs)))
  = Fulfilled {| status := 404; json := JsonError (answer_not_found W) |}.
Proof.
  intros Hname Hname' Hvalid Hanswer Hread Hwrite Hread' Hrecord Hoffer Hpass.
  destruct (connectionAnswer_published W publish fs id fields)
    as (fs' & -> & Hnew & _ & Hfaults); try done. simpl.
  rewrite (getAnswer_existing W fetch fs' id _ Hname' Hvalid) by
    (by rewrite ?Hfaults).
  erewrite lookup_union_Some_l by (by simplify_map_eq).
  by destruct Hanswer as [-> | ->].
Qed.

(** X5: on a valid identifier from which the client builds a reference,
    an offer published, an answer published under the same password, and
    the answer fetched: the three succeed in turn and the fetch sends back
    exactly the answer, on any documents. *)
Theorem exchange_round_trip (W : Wording) (publish answer fetch : Request)
    (fs : Firestore) (id o a : string) :
  isValidConnectionName id = true →
  names_document (collection_name W) id = true →
  o ≠ "" →
  a ≠ "" →
  body publish !! name_key W = Some id →
  body publish !! "offer" = Some o →
  body answer !! name_key W = Some id →
  body answer !! "answer" = Some a →
  or_empty (body answer !! "password")
  = or_empty (body publish !! "password") →
  query fetch !! name_key W = Some id →
  (∀ n, (n < 4)%nat → fault_at n fs = None) →
  let fs1 := snd (connectionOffer W publish fs) in
  let fs2 := snd (connectionAnswer W answer fs1) in
  fst (connectionOffer W publish fs)
  = Fulfilled {| status := 200; json := JsonSuccess (Some "Success") |}
  ∧ fst (connectionAnswer W answer fs1)
    = Fulfilled {| status := 200; json := JsonSuccess (Some "Success") |}
  ∧ fst (getAnswer W fetch fs2)
    = Fulfilled {| status := 200; json := JsonSuccess (Some a) |}.
Proof.
  intros Hvalid Hdoc Ho Ha Hname Hoffer Hname' Hanswer Hpw Hname'' Hfaults
    fs1 fs2.
  subst fs1 fs2.
  destruct (connectionOffer_published W publish fs id o)
    as (fs1 & -> & Hrecord1 & Hfaults1); try done; [by apply Hfaults; lia|].
  simpl.
  assert (fault_at 0 fs1 = None) as Hread1
    by (rewrite Hfaults1; apply Hfaults; lia).
  assert (fault_at 1 fs1 = None) as Hwrite1
    by (rewrite Hfaults1; apply Hfaults; lia).
  destruct (connectionAnswer_published W answer fs1 id _ Hname' Hvalid
              Hread1 Hwrite1 Hrecord1)
    as (fs2 & -> & Hrecord2 & _ & Hfaults2).
  - erewrite lookup_union_Some_l by (by simplify_map_eq).
    by apply truthy_Some_true.
  - intros stored Hstored Hne.
    erewrite lookup_union_Some_l in Hstored by (by simplify_map_eq).
    congruence.
  - simpl. repeat split.
    rewrite (getAnswer_existing W fetch fs2 id _ Hname'' Hvalid)
      with (2 := Hrecord2)
      by (rewrite Hfaults2, Hfaults1; apply Hfaults; lia).
    rewrite Hanswer. simpl.
    erewrite lookup_union_Some_l by (by simplify_map_eq).
    simpl. by rewrite bool_decide_true.
Qed.

(** X15: on a valid identifier from which the client builds a reference,
    an offer published under a non-empty password is sent back by the
    [getOffer] that follows exactly when the request brings that password;
    any other password, or none, gets the password error (403). *)
Theorem guarded_offer_round_trip (W : Wording) (publish fetch : Request)
    (fs : Firestore) (id o pw : string) :
  isValidConnectionName id = true →
  names_document (collection_name W) id = true →
  o ≠ "" →
  pw ≠ "" →
  body publish !! name_key W = Some id →
  body publish !! "offer" = Some o →
  body publish !! "password" = Some pw →
  query fetch !! name_key W = Some id →
  fault_at 0 fs = None →
  fault_at 1 fs = None →
  fst (getOffer W fetch (snd (connectionOffer W publish fs)))
  = Fulfilled
      (if bool_decide (query fetch !! "password" = Some pw)
       then {| status := 200; json := JsonSuccess (Some o) |}
       else {| status := 403;
               json := JsonError "Invalid or incorrect password" |}).
Proof.
  intros Hvalid Hdoc Ho Hpw Hname Hoffer Hpassword Hname' Hwrite Hread.
  destruct (connectionOffer_published W publish fs id o)
    as (fs1 & -> & Hrecord & Hfaults); try done. simpl.
  rewrite (getOffer_existing W fetch fs1 id _ Hname' Hvalid)
    with (2 := Hrecord) by (by rewrite Hfaults).
  rewrite Hpassword. simpl.
  rewrite !(lookup_union_Some_l _ _ _ pw), (lookup_union_Some_l _ _ _ o)
    by (by simplify_map_eq).
  simpl. rewrite (bool_decide_true (pw ≠ "")) by done. simpl.
  destruct (query fetch !! "password") as [supplied|]; simpl;
    repeat case_bool_decide; simplify_eq; done.
Qed.

(** *** The further properties at sample requests *)

Lemma invalid_name_rejected_witness :
  handler connection_wording PublishAnswer
    (request_of [("connectionName", letters 101); ("answer", "v=1")])
    (backend_of "room" guarded_record [])
  = (Fulfilled {| status := 403;
                  json := JsonError "Invalid connection name" |},
     backend_of "room" guarded_record []).
Proof.
  refine (invalid_name_rejected connection_wording PublishAnswer _ _ _).
  right. exists (letters 101). split; [vm_compute; reflexivity|].
  right. vm_compute. lia.
Defined.

Lemma missing_session_reported_witness :
  docs (snd (handler connection_wording PublishAnswer
               (request_of [("connectionName", "lobby"); ("answer", "v=1")])
               (backend_of "room" guarded_record [])))
  !! doc "connections" "lobby" = None.
Proof.
  refine (proj2 (missing_session_reported connection_wording PublishAnswer
                   (request_of [("connectionName", "lobby");
                                ("answer", "v=1")])
                   (backend_of "room" guarded_record []) _ _ _ _ _));
    (vm_compute; reflexivity) || discriminate.
Defined.

Lemma fetch_repeatable_witness :
  fst (handler connection_wording FetchAnswer
         (request_of [("connectionName", "room")])
         (snd (handler connection_wording FetchAnswer
                 (request_of [("connectionName", "room")])
                 (backend_of "room" guarded_record []))))
  = fst (handler connection_wording FetchAnswer
           (request_of [("connectionName", "room")])
           (backend_of "room" guarded_record [])).
Proof.
  refine (fetch_repeatable connection_wording FetchAnswer _ _ _ _ _);
    [by right | vm_compute; reflexivity | vm_compute; reflexivity].
Defined.



Lemma read_failure_escapes_witness :
  fst (handler connection_wording PublishAnswer
         (request_of [("connectionName", "room"); ("answer", "v=1")])
         (backend_of "room" open_record [Some "UNAVAILABLE"]))
  = Rejected "UNAVAILABLE".
Proof.
  refine (read_failure_escapes connection_wording PublishAnswer _ _ _
            _ _ _ _);
    (vm_compute; reflexivity) || discriminate.
Defined.

Lemma serve_keeps_offers_witness :
  offers_present
    (docs (serve connection_wording
             [(PublishOffer,
               request_of [("connectionName", "room"); ("offer", "v=0")]);
              (PublishAnswer,
               request_of [("connectionName", "room"); ("answer", "v=1")]);
              (PublishAnswer, request_of [("connectionName", "lobby")])]
             empty_backend)).
Proof.
  refine (serve_keeps_offers connection_wording _ empty_backend _).
  intros ref fields Hrecord. simpl in Hrecord.
  rewrite lookup_empty in Hrecord. discriminate.
Defined.

Lemma connectionAnswer_sets_answer_only_witness :
  ∃ fs' fields',
    connectionAnswer connection_wording
      (request_of [("connectionName", "room"); ("password", "secret");
                   ("answer", "v=2")])
      (backend_of "room" guarded_record [])
    = (Fulfilled {| status := 200; json := JsonSuccess (Some "Success") |},
       fs')
    ∧ docs fs' !! doc "connections" "room" = Some fields'
    ∧ fields' !! "answer" = Some "v=2"
    ∧ fields' !! "offer" = Some "v=0".
Proof.
  destruct (connectionAnswer_sets_answer_only connection_wording
              (request_of [("connectionName", "room"); ("password", "secret");
                           ("answer", "v=2")])
              (backend_of "room" guarded_record []) "room" "v=2"
              (list_to_map guarded_record))
    as (fs' & fields' & Hsent & Hrecord & Hanswer & Hkeys & _);
    try (vm_compute; reflexivity).
  - intros stored Hstored Hne. vm_compute in Hstored.
    injection Hstored as <-. vm_compute; reflexivity.
  - exists fs', fields'. repeat split; try assumption.
    rewrite Hkeys by discriminate. vm_compute; reflexivity.
Defined.

Lemma empty_answer_withdraws_witness :
  fst (getAnswer connection_wording
         (request_of [("connectionName", "room")])
         (snd (connectionAnswer connection_wording
                 (request_of [("connectionName", "room");
                              ("password", "secret")])
                 (backend_of "room" guarded_record []))))
  = Fulfilled {| status := 404;
                 json := JsonError "Connection answer not found" |}.
Proof.
  refine (empty_answer_withdraws connection_wording _ _ _ "room"
            (list_to_map guarded_record) _ _ _ _ _ _ _ _ _ _);
    try (vm_compute; reflexivity).
  - left. vm_compute; reflexivity.
  - intros stored Hstored Hne. vm_compute in Hstored.
    injection Hstored as <-. vm_compute; reflexivity.
Defined.

Lemma exchange_round_trip_witness :
  fst (getAnswer connection_wording
         (request_of [("connectionName", "room")])
         (snd (connectionAnswer connection_wording
                 (request_of [("connectionName", "room");
                              ("password", "secret"); ("answer", "v=1")])
                 (snd (connectionOffer connection_wording
                         (request_of [("connectionName", "room");
                                      ("password", "secret");
                                      ("offer", "v=0")])
                         empty_backend)))))
  = Fulfilled {| status := 200; json := JsonSuccess (Some "v=1") |}.
Proof.
  refine (proj2 (proj2 (exchange_round_trip connection_wording _ _ _
                          empty_backend "room" "v=0" "v=1"
                          _ _ _ _ _ _ _ _ _ _ _)));
    (vm_compute; reflexivity) || discriminate.
Defined.

Lemma guarded_offer_round_trip_witness :
  fst (getOffer connection_wording
         (request_of [("connectionName", "room"); ("password", "guess")])
         (snd (connectionOffer connection_wording
                 (request_of [("connectionName", "room");
                              ("password", "secret"); ("offer", "v=0")])
                 empty_backend)))
  = Fulfilled {| status := 403;
                 json := JsonError "Invalid or incorrect password" |}.
Proof.
  refine (guarded_offer_round_trip connection_wording _ _ empty_backend
            "room" "v=0" "secret" _ _ _ _ _ _ _ _ _ _);
    (vm_compute; reflexivity) || discriminate.
Defined.

Lemma refused_name_escapes_witness :
  ∃ error,
    handler connection_wording PublishAnswer
      (request_of [("connectionName", "a/b"); ("answer", "v=1")])
      (backend_of "room" guarded_record [])
    = (Rejected error, backend_of "room" guarded_record []).
Proof.
  eexists.
  refine (refused_name_escapes connection_wording PublishAnswer _ _ _ _ _ _);
    (vm_compute; reflexivity) || discriminate.
Defined.
